(** * create-expo-module: the scaffolding command, embedded and verified

    Source: [packages/create-expo-module/src/create-expo-module.ts]
    (and its compiled [build/create-expo-module.js]).

    The command asks for a slug and substitution values, acquires a
    template tree (local or from npm), renders every template file (its
    path and its contents) with ejs and writes the result under the target
    directory.

    Layout: the platform pieces the command calls (JavaScript strings,
    [path], the file system, the [ejs] fragment the templates use, the
    [prompts] loop) come first; then the command's functions under their
    source names, the vocabulary of the statements and a sample run; then
    the facts, and at the end the claims about the command. *)

From stdpp Require Import base strings list gmap.
From Stdlib Require Import Ascii ZArith Lia.

(* ================================================================== *)
(** * JavaScript values and string methods *)
(* ================================================================== *)

Module JS.

(** The values that flow through the command: prompt answers are strings
    or booleans, and a property that was never set reads [undefined]. *)
Inductive value :=
| Undefined
| Str (s : string)
| Bool (b : bool).

(** ToBoolean, as used by [a || b], [!a] and [a ? b : c]. *)
Definition truthy (v : value) : bool :=
  match v with
  | Undefined => false
  | Str s => negb (String.eqb s EmptyString)
  | Bool b => b
  end.

(** ToString, as used by template literals. *)
Definition to_string (v : value) : string :=
  match v with
  | Undefined => "undefined"
  | Str s => s
  | Bool true => "true"
  | Bool false => "false"
  end.

(** [a || b] *)
Definition or (a b : value) : value := if truthy a then a else b.

(** [String.prototype.replace(pattern, replacement)] with a *string*
    pattern: only the first occurrence is replaced.  The replacement is
    taken literally, which is what JavaScript does for a replacement
    without ['$']. *)
Fixpoint replace (pattern replacement s : string) : string :=
  if String.prefix pattern s
  then replacement +:+ String.substring (String.length pattern)
                                        (String.length s - String.length pattern) s
  else match s with
       | EmptyString => EmptyString
       | String a s' => String a (replace pattern replacement s')
       end.

(** [s.replace(/^\$/, '')]: the regular expression is anchored at the
    start of the string and has no [g] flag. *)
Definition replace_leading_dollar (s : string) : string :=
  match s with
  | String "$"%char rest => rest
  | _ => s
  end.

(** [Array.prototype.includes] on an array of strings. *)
Definition includes (l : list string) (x : string) : bool :=
  existsb (String.eqb x) l.

(** [String.prototype.includes] for a one-character needle. *)
Fixpoint contains (c : ascii) (s : string) : bool :=
  match s with
  | EmptyString => false
  | String a s' => Ascii.eqb a c || contains c s'
  end.

(** The white space of ASCII: the space, and tab to carriage return. *)
Definition is_space (a : ascii) : bool :=
  let n := nat_of_ascii a in
  (n =? 32)%nat || ((9 <=? n)%nat && (n <=? 13)%nat).

(** The white space beyond ASCII that [trim] removes (WhiteSpace and
    LineTerminator of ECMAScript), in UTF-8: U+00A0 in two bytes; U+1680,
    U+2000 to U+200A, U+2028, U+2029, U+202F, U+205F, U+3000 and U+FEFF in
    three. *)
Definition is_space2 (a b : ascii) : bool :=
  (nat_of_ascii a =? 194)%nat && (nat_of_ascii b =? 160)%nat.

Definition is_space3 (a b c : ascii) : bool :=
  let n := nat_of_ascii a in
  let m := nat_of_ascii b in
  let k := nat_of_ascii c in
  ((n =? 225) && (m =? 154) && (k =? 128))%nat
  || ((n =? 226) && (m =? 128)
      && (((128 <=? k) && (k <=? 138)) || (k =? 168) || (k =? 169) || (k =? 175)))%nat
  || ((n =? 226) && (m =? 129) && (k =? 159))%nat
  || ((n =? 227) && (m =? 128) && (k =? 128))%nat
  || ((n =? 239) && (m =? 187) && (k =? 191))%nat.

(** The number of bytes of the white-space character at the head of the
    string; 0 when the string does not start with one. *)
Definition space_length (s : string) : nat :=
  match s with
  | String a s1 =>
      if is_space a then 1
      else match s1 with
           | String b s2 =>
               if is_space2 a b then 2
               else match s2 with
                    | String c _ => if is_space3 a b c then 3 else 0
                    | EmptyString => 0
                    end
           | EmptyString => 0
           end
  | EmptyString => 0
  end.

(** Drop the white space at the head; [skip] counts the bytes still to
    drop of the character under way. *)
Fixpoint trim_start_from (skip : nat) (s : string) : string :=
  match s with
  | EmptyString => EmptyString
  | String a s' =>
      match skip with
      | S n => trim_start_from n s'
      | O =>
          match space_length (String a s') with
          | S n => trim_start_from n s'
          | O => String a s'
          end
      end
  end.

Definition trim_start (s : string) : string := trim_start_from 0 s.

(** Cut the string where what is left is white space only. *)
Fixpoint trim_end (s : string) : string :=
  match s with
  | EmptyString => EmptyString
  | String a s' =>
      if String.eqb (trim_start (String a s')) EmptyString then EmptyString
      else String a (trim_end s')
  end.

(** [String.prototype.trim]; a string is the UTF-8 encoding of its
    text. *)
Definition trim (s : string) : string := trim_end (trim_start s).

End JS.

(* ================================================================== *)
(** * [path] (POSIX flavour) *)
(* ================================================================== *)

Module Path.

(** [path.sep] *)
Definition sep : string := "/".

Definition sep_char : ascii := "/"%char.

(** [s.split(c)] for a one-character separator. *)
Fixpoint split (c : ascii) (s : string) : list string :=
  match s with
  | EmptyString => [EmptyString]
  | String a s' =>
      if Ascii.eqb a c then EmptyString :: split c s'
      else match split c s' with
           | [] => [String a EmptyString]
           | h :: t => String a h :: t
           end
  end.

(** One step of [normalizeString]: segments are pushed on a stack (top
    first); empty and ["."] segments are dropped, [".."] pops a segment
    that is not itself [".."], and otherwise stays only when the path may
    climb above its root. *)
Definition normalize_step (allowAboveRoot : bool) (stack : list string) (seg : string)
  : list string :=
  if String.eqb seg EmptyString || String.eqb seg "." then stack
  else if String.eqb seg ".." then
    match stack with
    | top :: below =>
        if String.eqb top ".." then seg :: stack else below
    | [] => if allowAboveRoot then [seg] else []
    end
  else seg :: stack.

Definition normalizeString (segs : list string) (allowAboveRoot : bool) : list string :=
  rev (fold_left (normalize_step allowAboveRoot) segs []).

Definition first_is_sep (p : string) : bool :=
  match p with
  | String a _ => Ascii.eqb a sep_char
  | EmptyString => false
  end.

Fixpoint last_is_sep (p : string) : bool :=
  match p with
  | EmptyString => false
  | String a EmptyString => Ascii.eqb a sep_char
  | String _ p' => last_is_sep p'
  end.

(** [path.posix.normalize] *)
Definition normalize (p : string) : string :=
  if String.eqb p EmptyString then "."
  else
    let isAbsolute := first_is_sep p in
    let trailingSeparator := last_is_sep p in
    let body := String.concat sep (normalizeString (split sep_char p) (negb isAbsolute)) in
    if String.eqb body EmptyString then
      if isAbsolute then "/" else if trailingSeparator then "./" else "."
    else
      (if isAbsolute then "/" else EmptyString) +:+ body +:+ (if trailingSeparator then "/" else EmptyString).

(** [path.posix.join(...args)] *)
Definition join (args : list string) : string :=
  match List.filter (λ a, negb (String.eqb a EmptyString)) args with
  | [] => "."
  | parts => normalize (String.concat sep parts)
  end.

(** A name a directory listing can contain: not empty, not ["."] or
    [".."], and without a separator. *)
Definition entry_name (s : string) : bool :=
  negb (String.eqb s EmptyString) && negb (String.eqb s ".") && negb (String.eqb s "..")
  && negb (JS.contains sep_char s).

(** A segment that [normalize] keeps as it is. *)
Definition plain_segment (s : string) : bool :=
  negb (String.eqb s EmptyString) && negb (String.eqb s ".") && negb (String.eqb s "..").

End Path.

(* ================================================================== *)
(** * The file system *)
(* ================================================================== *)

Module Fs.

(** A directory tree as [readdir] and [lstat] show it: a node is a
    regular file with its text, or a directory with its entries in
    listing order. *)
#[local] Unset Elimination Schemes.
Inductive node :=
| File (content : string)
| Dir (entries : list (string * node)).
#[local] Set Elimination Schemes.

Definition isDirectory (n : node) : bool :=
  match n with Dir _ => true | File _ => false end.

(** The entry called [name], if the directory has one. *)
Fixpoint lookup_entry (name : string) (es : list (string * node)) : option node :=
  match es with
  | [] => None
  | (n, x) :: rest => if String.eqb n name then Some x else lookup_entry name rest
  end.

(** Replace the entry called [name], or add it at the end of the listing. *)
Fixpoint set_entry (name : string) (x : node) (es : list (string * node))
  : list (string * node) :=
  match es with
  | [] => [(name, x)]
  | (n, y) :: rest =>
      if String.eqb n name then (n, x) :: rest else (n, y) :: set_entry name x rest
  end.

Fixpoint remove_entry (name : string) (es : list (string * node))
  : list (string * node) :=
  match es with
  | [] => []
  | (n, y) :: rest =>
      if String.eqb n name then rest else (n, y) :: remove_entry name rest
  end.

(** The segments the kernel walks for a path: resolved from the root,
    which is also the working directory of the process. *)
Definition locate (p : string) : list string :=
  Path.normalizeString (Path.split Path.sep_char p) false.

(** The node at the end of a walk. *)
Fixpoint find (segs : list string) (n : node) : option node :=
  match segs with
  | [] => Some n
  | s :: rest =>
      match n with
      | Dir es =>
          match lookup_entry s es with
          | Some child => find rest child
          | None => None
          end
      | File _ => None
      end
  end.

(** [mkdir -p]: fails when a regular file is in the way. *)
Fixpoint mkdirp (segs : list string) (n : node) : option node :=
  match n with
  | File _ => None
  | Dir es =>
      match segs with
      | [] => Some n
      | s :: rest =>
          match mkdirp rest (default (Dir []) (lookup_entry s es)) with
          | Some child => Some (Dir (set_entry s child es))
          | None => None
          end
      end
  end.

(** [fs.outputFile(path, content)]: create the missing parent
    directories, then create or overwrite the file.  Fails when a
    parent is a regular file or the path is a directory. *)
Fixpoint write (segs : list string) (content : string) (n : node) : option node :=
  match segs, n with
  | [], _ => None
  | _ :: _, File _ => None
  | [s], Dir es =>
      match lookup_entry s es with
      | Some (Dir _) => None
      | _ => Some (Dir (set_entry s (File content) es))
      end
  | s :: rest, Dir es =>
      match write rest content (default (Dir []) (lookup_entry s es)) with
      | Some child => Some (Dir (set_entry s child es))
      | None => None
      end
  end.

(** [fs.remove(path)]: delete the node and what is below it; a missing
    path is not an error. *)
Fixpoint remove (segs : list string) (n : node) : node :=
  match segs, n with
  | [s], Dir es => Dir (remove_entry s es)
  | s :: rest, Dir es =>
      match lookup_entry s es with
      | Some child => Dir (set_entry s (remove rest child) es)
      | None => n
      end
  | _, _ => n
  end.

(** The regular files below a node, with their walks. *)
Fixpoint files (n : node) : list (list string * string) :=
  match n with
  | File c => [([], c)]
  | Dir es =>
      (fix scan (es : list (string * node)) : list (list string * string) :=
         match es with
         | [] => []
         | (name, x) :: rest =>
             map (λ '(segs, c), (name :: segs, c)) (files x) ++ scan rest
         end) es
  end.

(** Unpack a tree below a directory, file by file. *)
Definition extract (dir : list string) (tree : node) (disk : node) : option node :=
  foldl (λ acc '(segs, c), d ← acc; write (dir ++ segs) c d)
        (mkdirp dir disk) (files tree).

(** The text of the regular file at the end of a walk. *)
Definition content (segs : list string) (n : node) : option string :=
  match find segs n with
  | Some (File c) => Some c
  | _ => None
  end.

(** A batch of writes, in order. *)
Fixpoint writes (ws : list (list string * string)) (t : node) : option node :=
  match ws with
  | [] => Some t
  | (p, c) :: rest => t' ← write p c t; writes rest t'
  end.

(** Overwrite the text of a regular file that exists; anything else is
    left alone.  On a file that exists this is what [write] does. *)
Fixpoint set (segs : list string) (c : string) (n : node) : node :=
  match segs, n with
  | [], File _ => File c
  | s :: rest, Dir es =>
      match lookup_entry s es with
      | Some child => Dir (set_entry s (set rest c child) es)
      | None => n
      end
  | _, _ => n
  end.

Fixpoint sets (ws : list (list string * string)) (t : node) : node :=
  match ws with
  | [] => t
  | (p, c) :: rest => sets rest (set p c t)
  end.

(** [dest] is [root] or lies below it. *)
Fixpoint within (root dest : list string) : bool :=
  match root, dest with
  | [], _ => true
  | r :: root', d :: dest' => String.eqb r d && within root' dest'
  | _ :: _, [] => false
  end.

(** Every name in the tree is one a directory listing can contain. *)
Fixpoint well_named (n : node) : bool :=
  match n with
  | File _ => true
  | Dir es =>
      (fix all (es : list (string * node)) : bool :=
         match es with
         | [] => true
         | (name, x) :: rest => Path.entry_name name && well_named x && all rest
         end) es
  end.

End Fs.

(* ================================================================== *)
(** * The substitution data *)
(* ================================================================== *)

(** [SubstitutionData] of [types.ts], as [askForSubstitutionDataAsync]
    builds it: what comes from prompt answers is whatever the answer was,
    [version], [author] and [license] are strings made here. *)
Record Project := {
  slug : JS.value;
  name : JS.value;
  version : string;
  description : JS.value;
  package : JS.value;
}.

Record SubstitutionData := {
  project : Project;
  author : string;
  license : string;
  repo : JS.value;
}.

(* ================================================================== *)
(** * The [ejs] fragment the templates use *)
(* ================================================================== *)

Module Ejs.

(** The options the command passes: the two outer delimiter characters
    (the inner one stays ['%']) and the escape function, which may
    throw. *)
Record options := {
  openDelimiter : ascii;
  closeDelimiter : ascii;
  escape : JS.value → option string;
}.

(** [utils.escapeXML], the default escape function. *)
Fixpoint encode_html (s : string) : string :=
  match s with
  | EmptyString => EmptyString
  | String a s' =>
      (if Ascii.eqb a "&" then "&amp;"
       else if Ascii.eqb a "<" then "&lt;"
       else if Ascii.eqb a ">" then "&gt;"
       else if Ascii.eqb a "034" then "&#34;"
       else if Ascii.eqb a "'" then "&#39;"
       else String a EmptyString) +:+ encode_html s'
  end.

Definition escapeXML (markup : JS.value) : option string :=
  match markup with
  | JS.Undefined => Some EmptyString
  | v => Some (encode_html (JS.to_string v))
  end.

Definition default_options : options :=
  {| openDelimiter := "<"; closeDelimiter := ">"; escape := escapeXML |}.

(** The tags of the fragment: [<%= e %>] (escaped output), [<%- e %>]
    (raw output) and [<%# ... %>] (comment). *)
Inductive tag := Escaped | Raw | Comment.

Inductive mode :=
| Text
| InTag (t : tag) (code : string).

(** The expressions of the fragment: a property of the data, by name,
    as [with (locals)] resolves it.  White space around it is ignored. *)
Definition eval (data : SubstitutionData) (code : string) : option JS.value :=
  let e := JS.trim code in
  if String.eqb e "project.slug" then Some (slug (project data))
  else if String.eqb e "project.name" then Some (name (project data))
  else if String.eqb e "project.version" then Some (JS.Str (version (project data)))
  else if String.eqb e "project.description" then Some (description (project data))
  else if String.eqb e "project.package" then Some (package (project data))
  else if String.eqb e "author" then Some (JS.Str (author data))
  else if String.eqb e "license" then Some (JS.Str (license data))
  else if String.eqb e "repo" then Some (repo data)
  else None.

(** [__append(s)]: [undefined] adds nothing. *)
Definition append_value (v : JS.value) : string :=
  match v with
  | JS.Undefined => EmptyString
  | _ => JS.to_string v
  end.

(** What a closed tag adds to the output. *)
Definition emit (opts : options) (data : SubstitutionData) (t : tag) (code : string)
  : option string :=
  match t with
  | Comment => Some EmptyString
  | Raw => v ← eval data code; Some (append_value v)
  | Escaped => v ← eval data code; escape opts v
  end.

Definition starts_with (a : ascii) (s : string) : bool :=
  match s with
  | String b _ => Ascii.eqb a b
  | EmptyString => false
  end.

Definition starts_with2 (a b : ascii) (s : string) : bool :=
  match s with
  | String a' s' => Ascii.eqb a a' && starts_with b s'
  | EmptyString => false
  end.

(** The scanner, one character at a time.  [None] is a template the
    engine rejects (an unclosed tag, an opening tag inside a tag, an
    expression that throws) or one outside the fragment (scriptlets,
    literal and white-space-slurping delimiters, other expressions). *)
Fixpoint scan (opts : options) (data : SubstitutionData) (m : mode) (s : string)
  : option string :=
  let o := openDelimiter opts in
  let c := closeDelimiter opts in
  match s with
  | EmptyString =>
      match m with
      | Text => Some EmptyString
      | InTag _ _ => None
      end
  | String a s1 =>
      match m with
      | Text =>
          if Ascii.eqb a o && starts_with "%" s1 then
            match s1 with
            | String _ (String k s3) =>
                if Ascii.eqb k "=" then scan opts data (InTag Escaped EmptyString) s3
                else if Ascii.eqb k "-" then scan opts data (InTag Raw EmptyString) s3
                else if Ascii.eqb k "#" then scan opts data (InTag Comment EmptyString) s3
                else None
            | _ => None
            end
          else if Ascii.eqb a "%" && starts_with c s1 then None
          else String a <$> scan opts data Text s1
      | InTag t code =>
          if Ascii.eqb a "%" && starts_with2 "%" c s1 then None
          else if Ascii.eqb a "%" && starts_with c s1 then
            match s1 with
            | String _ s2 =>
                out ← emit opts data t code;
                rest ← scan opts data Text s2;
                Some (out +:+ rest)
            | EmptyString => None
            end
          else if Ascii.eqb a o && starts_with "%" s1 then None
          else if (Ascii.eqb a "-" || Ascii.eqb a "_") && starts_with2 "%" c s1 then None
          else scan opts data (InTag t (code +:+ String a EmptyString)) s1
      end
  end.

(** [ejs.render(template, data, options)] *)
Definition render (template : string) (data : SubstitutionData) (opts : options)
  : option string :=
  scan opts data Text template.

(** A template without delimiters: no opening [o%] and no closing [%c]. *)
Fixpoint plain (o c : ascii) (s : string) : bool :=
  match s with
  | EmptyString => true
  | String a s1 =>
      negb (Ascii.eqb a o && starts_with "%" s1)
      && negb (Ascii.eqb a "%" && starts_with c s1)
      && plain o c s1
  end.

End Ejs.

(* ================================================================== *)
(** * Effects: the process, the user, the disk *)
(* ================================================================== *)

(** How an asynchronous call ends: it returns, the process exits on the
    spot ([process.exit(code)]), or it throws (a rejected promise). *)
Inductive outcome (A : Type) :=
| Returned (a : A)
| Exited (code : Z)
| Thrown (error : string).
Arguments Returned {A} a.
Arguments Exited {A} code.
Arguments Thrown {A} error.

Module Prompts.

(** A question of the [prompts] library; one whose [type] is falsy is
    skipped. *)
Record question := {
  type : option string;
  name : string;
  message : string;
  initial : JS.value;
}.

(** What the user does with a prompt. *)
Inductive reply :=
| Submit (answer : JS.value)
| Cancel.

End Prompts.

(** What the command does that can be seen from outside. *)
Inductive event :=
| Prompted (q : Prompts.question)
| ConsoleLog (line : string)
| StepStarted (title : string)
| StepSucceeded (text : string)
| EnsureDir (path : string)
| NpmView (spec : string)
| DownloadTarball (url dir : string)
| OutputFile (path content : string)
| Remove (path : string)
| InstallDependencies (packageManager dir : string)
| RunBuild (packageManager dir : string)
| CreateExampleApp (dir packageManager : string).

(** The state the command runs in: what the user will do at each prompt
    (a user who stops answering cancels), the disk, and the events so far
    (oldest first). *)
Record world := {
  replies : list Prompts.reply;
  disk : Fs.node;
  log : list event;
}.

(** The collaborators the command calls and whose code is elsewhere: the
    process environment, the question builders of [prompts.ts], the npm
    registry, and the package-manager steps.  An optional result is
    [None] when the call throws. *)
Record env := {
  CWD : string;
  EXPO_BETA : bool;
  getSlugPrompt : option string → list Prompts.question;
  getSubstitutionDataPrompts : JS.value → list Prompts.question;
  resolvePackageManager : option string;
  npm_view_stdout : string → option string;
  tarball : string → option Fs.node;
  installDependencies : string → string → Fs.node → option Fs.node;
  run_build : string → string → Fs.node → option Fs.node;
  createExampleApp : SubstitutionData → string → string → Fs.node → option Fs.node;
}.

(** An asynchronous function. *)
Definition M (A : Type) : Type := world → outcome A * world.

Definition ret {A} (a : A) : M A := λ w, (Returned a, w).

Definition bind {A B} (m : M A) (k : A → M B) : M B :=
  λ w, match m w with
       | (Returned a, w') => k a w'
       | (Exited code, w') => (Exited code, w')
       | (Thrown e, w') => (Thrown e, w')
       end.

Declare Scope async_scope.
Delimit Scope async_scope with async.
Notation "x <- m ;; k" := (bind m (λ x, k))
  (at level 100, m at next level, right associativity) : async_scope.
Notation "m ;;; k" := (bind m (λ _, k))
  (at level 100, right associativity) : async_scope.
Open Scope async_scope.

(** [process.exit(code)] *)
Definition exit {A} (code : Z) : M A := λ w, (Exited code, w).

Definition throw {A} (error : string) : M A := λ w, (Thrown error, w).

Definition emit (e : event) : M unit :=
  λ w, (Returned tt, {| replies := replies w; disk := disk w; log := log w ++ [e] |}).

(** Lift a call that returns nothing when it throws. *)
Definition try {A} (error : string) (r : option A) : M A :=
  match r with
  | Some a => ret a
  | None => throw error
  end.

Definition get_disk : M Fs.node := λ w, (Returned (disk w), w).

Definition put_disk (d : Fs.node) : M unit :=
  λ w, (Returned tt, {| replies := replies w; disk := d; log := log w |}).

(** A step on the disk that may throw. *)
Definition on_disk (error : string) (f : Fs.node → option Fs.node) : M unit :=
  d <- get_disk ;; d' <- try error (f d) ;; put_disk d'.

(** [for (const x of xs) { await body(x) }] *)
Fixpoint for_of {A} (xs : list A) (body : A → M unit) : M unit :=
  match xs with
  | [] => ret tt
  | x :: rest => body x ;;; for_of rest body
  end.

(** ** File-system calls *)

(** [fs.readdir(path)] *)
Definition readdir (path : string) : M (list string) :=
  d <- get_disk ;;
  match Fs.find (Fs.locate path) d with
  | Some (Fs.Dir es) => ret (map fst es)
  | Some (Fs.File _) => throw "ENOTDIR"
  | None => throw "ENOENT"
  end.

(** [fs.ensureDir(path)] *)
Definition ensureDir (path : string) : M unit :=
  emit (EnsureDir path) ;;;
  on_disk "EEXIST" (Fs.mkdirp (Fs.locate path)).

(** [fs.readFile(path, { encoding: 'utf8' })] *)
Definition readFile (path : string) : M string :=
  d <- get_disk ;;
  match Fs.find (Fs.locate path) d with
  | Some (Fs.File c) => ret c
  | Some (Fs.Dir _) => throw "EISDIR"
  | None => throw "ENOENT"
  end.

(** [fs.outputFile(path, content, { encoding: 'utf8' })] *)
Definition outputFile (path content : string) : M unit :=
  emit (OutputFile path content) ;;;
  on_disk "EISDIR/ENOTDIR" (Fs.write (Fs.locate path) content).

(** [fs.remove(path)] *)
Definition remove (path : string) : M unit :=
  emit (Remove path) ;;;
  d <- get_disk ;; put_disk (Fs.remove (Fs.locate path) d).

(** ** The [prompts] loop *)

(** Show one prompt: the user's next move is consumed. *)
Definition ask (q : Prompts.question) : M Prompts.reply :=
  λ w,
    let w' r rest := {| replies := rest; disk := disk w; log := log w ++ [Prompted q] |} in
    match replies w with
    | r :: rest => (Returned r, w' r rest)
    | [] => (Returned Prompts.Cancel, w' Prompts.Cancel [])
    end.

(** [prompts(questions, { onCancel })]: questions are asked in order and
    answers collected by name; when a prompt is cancelled [onCancel] runs,
    and the loop goes on only if it returns a truthy value. *)
Fixpoint prompts (questions : list Prompts.question) (onCancel : M JS.value)
    (answers : gmap string JS.value) : M (gmap string JS.value) :=
  match questions with
  | [] => ret answers
  | question :: rest =>
      match Prompts.type question with
      | None => prompts rest onCancel answers
      | Some _ =>
          r <- ask question ;;
          match r with
          | Prompts.Submit answer =>
              prompts rest onCancel (<[Prompts.name question := answer]> answers)
          | Prompts.Cancel =>
              keep <- onCancel ;;
              if JS.truthy keep then prompts rest onCancel answers else ret answers
          end
      end
  end.

(** Reading a property of the answers object. *)
Definition prop (answers : gmap string JS.value) (key : string) : JS.value :=
  default JS.Undefined (answers !! key).

(* ================================================================== *)
(** * The command *)
(* ================================================================== *)

(** [const IGNORES_PATHS = ['.DS_Store', 'build', 'node_modules', 'package.json']] *)
Definition IGNORES_PATHS : list string :=
  [".DS_Store"; "build"; "node_modules"; "package.json"].

(** [const relativePath = dir ? path.join(dir, file) : file] *)
Definition relativePath (dir : option string) (file : string) : string :=
  match dir with
  | Some d => if String.eqb d EmptyString then file else Path.join [d; file]
  | None => file
  end.

(** [getFilesAsync(root, dir = null)], given the node found at [baseDir]:
    [readdir(baseDir)] is the list of its entry names, [lstat] of an entry
    is the entry's node.  Returned paths are relative to the root.  The
    recursion only enters directories; at the root a regular file makes
    [readdir] throw, which [listFiles] below models. *)
Fixpoint getFilesAsync (dir : option string) (base : Fs.node) : list string :=
  match base with
  | Fs.File _ => []
  | Fs.Dir entries =>
      (fix scan (es : list (string * Fs.node)) : list string :=
         match es with
         | [] => []
         | (file, stat) :: rest =>
             if JS.includes IGNORES_PATHS (relativePath dir file)
                || JS.includes IGNORES_PATHS file
             then scan rest
             else
               (if Fs.isDirectory stat
                then getFilesAsync (Some (relativePath dir file)) stat
                else [relativePath dir file]) ++ scan rest
         end) entries
  end.

(** [CommandOptions] of [types.ts]. *)
Module CommandOptions.
Record t := {
  target : option string;
  source : option string;
  withReadme : bool;
  withChangelog : bool;
  example : bool;
}.
End CommandOptions.

(** An optional string argument as a JavaScript value. *)
Definition of_option (s : option string) : JS.value :=
  match s with
  | Some s => JS.Str s
  | None => JS.Undefined
  end.

(** [path.join(a, b)] where [b] is any value: [path] validates that its
    arguments are strings. *)
Definition path_join_value (a : string) (b : JS.value) : M string :=
  match b with
  | JS.Str s => ret (Path.join [a; s])
  | _ => throw "TypeError [ERR_INVALID_ARG_TYPE]"
  end.

(** Modelled from the spec: [newStep] of [utils.ts] is not among the
    sources; a step is reported under its title and a failure of its
    action aborts the run. *)
Definition newStep {A} (title : string) (action : M A) : M A :=
  emit (StepStarted title) ;;; action.

(** [step.succeed(text)] *)
Definition succeed (text : string) : M unit := emit (StepSucceeded text).

(** The call [getFilesAsync(root)] on the disk. *)
Definition listFiles (root : string) : M (list string) :=
  d <- get_disk ;;
  match Fs.find (Fs.locate root) d with
  | Some (Fs.Dir es) => ret (getFilesAsync None (Fs.Dir es))
  | Some (Fs.File _) => throw "ENOTDIR"
  | None => throw "ENOENT"
  end.

(** [spawnAsync('npm', ['view', `${packageName}@${version}`, 'dist.tarball'])]
    and [stdout.trim()]. *)
Definition getNpmTarballUrl (E : env) (packageName version : string) : M string :=
  let spec := packageName +:+ "@" +:+ version in
  emit (NpmView spec) ;;;
  stdout <- try "npm view failed" (npm_view_stdout E spec) ;;
  ret (JS.trim stdout).

(** [downloadTarball({ url, dir })] *)
Definition downloadTarball (E : env) (url dir : string) : M unit :=
  emit (DownloadTarball url dir) ;;;
  tree <- try "download failed" (tarball E url) ;;
  on_disk "extraction failed" (Fs.extract (Fs.locate dir) tree).

Definition downloadPackageAsync (E : env) (targetDir : string) : M string :=
  newStep "Downloading module template from npm"
    (tarballUrl <- getNpmTarballUrl E "expo-module-template"
                     (if EXPO_BETA E then "next" else "latest") ;;
     downloadTarball E tarballUrl targetDir ;;;
     succeed "Downloaded module template from npm" ;;;
     ret (Path.join [targetDir; "package"])).

(** The [escape] option of the path rendering:
    [(value) => value.replace('.', path.sep)].  A value that is not a
    string has no [replace] method. *)
Definition escape (value : JS.value) : option string :=
  match value with
  | JS.Str s => Some (JS.replace "." Path.sep s)
  | _ => None
  end.

(** The options of the path rendering. *)
Definition path_options : Ejs.options :=
  {| Ejs.openDelimiter := "{"; Ejs.closeDelimiter := "}"; Ejs.escape := escape |}.

(** [ejs.render(file.replace(/^\$/, ''), data, { ... })] *)
Definition renderedRelativePath (file : string) (data : SubstitutionData) : option string :=
  Ejs.render (JS.replace_leading_dollar file) data path_options.

(** [ejs.render(template, data)] *)
Definition renderedContent (template : string) (data : SubstitutionData) : option string :=
  Ejs.render template data Ejs.default_options.

(** The body of the loop [for (const file of files)] of
    [createModuleFromTemplate]. *)
Definition loop_body (templatePath targetPath : string) (data : SubstitutionData)
    (file : string) : M unit :=
  renderedRelativePath <- try "ejs" (renderedRelativePath file data) ;;
  let fromPath := Path.join [templatePath; file] in
  let toPath := Path.join [targetPath; renderedRelativePath] in
  template <- readFile fromPath ;;
  renderedContent <- try "ejs" (renderedContent template data) ;;
  outputFile toPath renderedContent.

Definition createModuleFromTemplate (templatePath targetPath : string)
    (data : SubstitutionData) : M unit :=
  files <- listFiles templatePath ;;
  for_of files (loop_body templatePath targetPath data).

Definition askForPackageSlugAsync (E : env) (customTargetPath : option string)
  : M JS.value :=
  answers <- prompts (getSlugPrompt E customTargetPath) (exit 0) ∅ ;;
  ret (prop answers "slug").

Definition askForSubstitutionDataAsync (E : env) (slug : JS.value) : M SubstitutionData :=
  let promptQueries := getSubstitutionDataPrompts E slug in
  let onCancel : M JS.value := exit 0 in
  answers <- prompts promptQueries onCancel ∅ ;;
  let name := prop answers "name" in
  let description := prop answers "description" in
  let projectPackage := prop answers "package" in
  let authorName := prop answers "authorName" in
  let authorEmail := prop answers "authorEmail" in
  let authorUrl := prop answers "authorUrl" in
  let repo := prop answers "repo" in
  ret {| project := {| slug := slug;
                       name := name;
                       version := "0.1.0";
                       description := description;
                       package := projectPackage |};
         author := JS.to_string authorName +:+ " <" +:+ JS.to_string authorEmail
                   +:+ "> (" +:+ JS.to_string authorUrl +:+ ")";
         license := "MIT";
         repo := repo |}.

(** The confirmation question of [confirmTargetDirAsync]. *)
Definition shouldContinue_question (targetDir : string) : Prompts.question :=
  {| Prompts.type := Some "confirm";
     Prompts.name := "shouldContinue";
     Prompts.message := "The target directory " +:+ targetDir
                        +:+ " is not empty, do you want to continue anyway?";
     Prompts.initial := JS.Bool true |}.

Definition confirmTargetDirAsync (targetDir : string) : M unit :=
  files <- readdir targetDir ;;
  if (length files =? 0)%nat then ret tt
  else
    answers <- prompts [shouldContinue_question targetDir] (ret (JS.Bool false)) ∅ ;;
    let shouldContinue := prop answers "shouldContinue" in
    if negb (JS.truthy shouldContinue) then exit 0 else ret tt.

(** The template root of [main]:
    [options.source ? path.join(CWD, options.source) : await downloadPackageAsync(targetDir)] *)
Definition packagePath (E : env) (options : CommandOptions.t) (targetDir : string)
  : M string :=
  if JS.truthy (of_option (CommandOptions.source options))
  then ret (Path.join [CWD E; default EmptyString (CommandOptions.source options)])
  else downloadPackageAsync E targetDir.

(** [main(target, options)].  The assignment [options.target = targetDir]
    rebinds [options]; the two calls [console.log()] print an empty line. *)
Definition main (E : env) (target : option string) (options : CommandOptions.t) : M unit :=
  slug <- askForPackageSlugAsync E target ;;
  targetDir <- path_join_value (CWD E) (JS.or (of_option target) slug) ;;
  ensureDir targetDir ;;;
  confirmTargetDirAsync targetDir ;;;
  let options := {| CommandOptions.target := Some targetDir;
                    CommandOptions.source := CommandOptions.source options;
                    CommandOptions.withReadme := CommandOptions.withReadme options;
                    CommandOptions.withChangelog := CommandOptions.withChangelog options;
                    CommandOptions.example := CommandOptions.example options |} in
  data <- askForSubstitutionDataAsync E slug ;;
  emit (ConsoleLog EmptyString) ;;;
  packageManager <- try "resolvePackageManager" (resolvePackageManager E) ;;
  packagePath <- packagePath E options targetDir ;;
  newStep "Creating the module from template files"
    (createModuleFromTemplate packagePath targetDir data ;;;
     succeed "Created the module from template files") ;;;
  newStep "Installing module dependencies"
    (emit (InstallDependencies packageManager targetDir) ;;;
     on_disk "installDependencies" (installDependencies E packageManager targetDir) ;;;
     succeed "Installed module dependencies") ;;;
  newStep "Compiling TypeScript files"
    (emit (RunBuild packageManager targetDir) ;;;
     on_disk "build" (run_build E packageManager targetDir) ;;;
     succeed "Compiled TypeScript files") ;;;
  (if negb (JS.truthy (of_option (CommandOptions.source options)))
   then remove packagePath else ret tt) ;;;
  (if negb (CommandOptions.withReadme options)
   then remove (Path.join [targetDir; "README.md"]) else ret tt) ;;;
  (if negb (CommandOptions.withChangelog options)
   then remove (Path.join [targetDir; "CHANGELOG.md"]) else ret tt) ;;;
  (if CommandOptions.example options
   then emit (CreateExampleApp targetDir packageManager) ;;;
        on_disk "createExampleApp" (createExampleApp E data targetDir packageManager)
   else ret tt) ;;;
  emit (ConsoleLog EmptyString) ;;;
  emit (ConsoleLog "Successfully created Expo module").

(** The exit status of the process for an outcome of [main]: a run that
    returns ends with status 0, [process.exit(code)] with [code], and an
    uncaught failure with a non-zero status. *)
Definition exit_status {A} (o : outcome A) : Z :=
  match o with
  | Returned _ => 0
  | Exited code => code
  | Thrown _ => 1
  end.

(* ================================================================== *)
(** * Vocabulary of the statements *)
(* ================================================================== *)

(** ** Prompts *)

Definition askable (q : Prompts.question) : bool :=
  match Prompts.type q with
  | Some _ => true
  | None => false
  end.

(** The questions that are shown. *)
Definition asked (qs : list Prompts.question) : list Prompts.question :=
  List.filter askable qs.

(** The answers object after every shown question was answered, in order,
    with [vs]. *)
Fixpoint collect (qs : list Prompts.question) (vs : list JS.value)
    (answers : gmap string JS.value) : gmap string JS.value :=
  match qs with
  | [] => answers
  | q :: rest =>
      match Prompts.type q, vs with
      | None, _ => collect rest vs answers
      | Some _, v :: vs' => collect rest vs' (<[Prompts.name q := v]> answers)
      | Some _, [] => answers
      end
  end.

(** One of the next [n] prompts is cancelled. *)
Fixpoint cancels (n : nat) (rs : list Prompts.reply) : bool :=
  match n with
  | O => false
  | S n' =>
      match rs with
      | Prompts.Submit _ :: rs' => cancels n' rs'
      | _ => true
      end
  end.

(** The user's next move is not a truthy answer: "no", or a cancellation. *)
Definition declines (rs : list Prompts.reply) : bool :=
  match rs with
  | Prompts.Submit v :: _ => negb (JS.truthy v)
  | _ => true
  end.

(** The world after [evs] happened and the user is left with [rs]. *)
Definition with_log (w : world) (evs : list event) (rs : list Prompts.reply) : world :=
  {| replies := rs; disk := disk w; log := log w ++ evs |}.

Definition is_output (e : event) : bool :=
  match e with
  | OutputFile _ _ | DownloadTarball _ _ => true
  | _ => false
  end.

(** ** Paths *)

Definition not_dotdot (s : string) : bool := negb (String.eqb s "..").

(** The stack of [normalizeString]: what is not [".."] is a plain segment,
    and below a [".."] there are only [".."]. *)
Fixpoint shaped (stack : list string) : Prop :=
  match stack with
  | [] => True
  | top :: below =>
      (if String.eqb top ".." then Forall (λ s, s = "..") below
       else Path.plain_segment top = true) ∧ shaped below
  end.

(** A segment of a discovered path: plain, and not an ignored name. *)
Definition clean_segment (s : string) : Prop :=
  Path.plain_segment s = true ∧ JS.includes IGNORES_PATHS s = false.

Definition clean_dir (dir : option string) : Prop :=
  match dir with
  | Some d => Forall clean_segment (Path.split Path.sep_char d)
  | None => True
  end.

Definition clean_file (file : string) : Prop :=
  Forall (λ s, Path.plain_segment s = true) (Path.split Path.sep_char file).

(** ** Rendering, as a function of the template tree and the data *)

(** What the loop makes of one template file of the tree [T]: the
    destination and the text written there. *)
Definition rendered_file (T : Fs.node) (targetPath : string) (data : SubstitutionData)
    (file : string) : option (string * string) :=
  r ← renderedRelativePath file data;
  template ← Fs.content (Path.split Path.sep_char file) T;
  c ← renderedContent template data;
  Some (Path.join [targetPath; r], c).

Fixpoint rendered_files (T : Fs.node) (targetPath : string) (data : SubstitutionData)
    (files : list string) : option (list (string * string)) :=
  match files with
  | [] => Some []
  | file :: rest =>
      o ← rendered_file T targetPath data file;
      os ← rendered_files T targetPath data rest;
      Some (o :: os)
  end.

(** The destination of a template file is not inside the template tree. *)
Definition outside (templatePath targetPath : string) (data : SubstitutionData)
    (file : string) : bool :=
  match renderedRelativePath file data with
  | Some r =>
      negb (Fs.within (Fs.locate templatePath) (Fs.locate (Path.join [targetPath; r])))
  | None => true
  end.

(** Rendering in isolation: no destination is inside the template tree. *)
Definition isolated (T : Fs.node) (templatePath targetPath : string)
    (data : SubstitutionData) : bool :=
  forallb (outside templatePath targetPath data) (getFilesAsync None T).

Definition located (outs : list (string * string)) : list (list string * string) :=
  map (λ o, (Fs.locate o.1, o.2)) outs.

Definition output_events (outs : list (string * string)) : list event :=
  map (λ o, OutputFile o.1 o.2) outs.

(** ** Effects *)

(** The exits of an asynchronous function all have status 0. *)
Definition exits_zero {A} (m : M A) : Prop :=
  ∀ w c w', m w = (Exited c, w') → c = 0%Z.

(** An asynchronous function that writes no file and downloads nothing:
    whatever it does, it adds no such event to the log. *)
Definition silent {A} (m : M A) : Prop :=
  ∀ w o w', m w = (o, w') →
    ∃ evs, log w' = log w ++ evs ∧ existsb is_output evs = false.

(* ================================================================== *)
(** * A sample run *)
(* ================================================================== *)

Module Sample.

Definition data : SubstitutionData :=
  {| project := {| slug := JS.Str "acme-widget";
                   name := JS.Str "AcmeWidget";
                   version := "0.1.0";
                   description := JS.Str "A widget";
                   package := JS.Str "com.acme.widget" |};
     author := "Ann <ann@acme.com> (https://acme.com)";
     license := "MIT";
     repo := JS.Str "https://github.com/acme/widget" |}.

(** A template tree in the style of [expo-module-template]. *)
Definition template : Fs.node :=
  Fs.Dir
    [("$package.json",
      Fs.File "{ name: <%- project.slug %>, version: <%- project.version %> }");
     ("android",
      Fs.Dir [("{%= project.package %}",
               Fs.Dir [("{%- project.name %}Module.kt",
                        Fs.File "package <%- project.package %>")])]);
     ("README.md", Fs.File "# <%- project.name %> by <%= author %>");
     ("package.json", Fs.File "{}");
     ("node_modules", Fs.Dir [("ejs", Fs.Dir [("index.js", Fs.File EmptyString)])])].

Definition text (name : string) : Prompts.question :=
  {| Prompts.type := Some "text";
     Prompts.name := name;
     Prompts.message := name;
     Prompts.initial := JS.Undefined |}.

Definition E : env :=
  {| CWD := "/work";
     EXPO_BETA := false;
     getSlugPrompt := λ _, [text "slug"];
     getSubstitutionDataPrompts := λ _,
       map text ["name"; "description"; "package";
                 "authorName"; "authorEmail"; "authorUrl"; "repo"];
     resolvePackageManager := Some "npm";
     npm_view_stdout := λ spec,
       if String.eqb spec "expo-module-template@latest"
       then Some "https://registry.npmjs.org/expo-module-template/-/expo-module-template-1.0.0.tgz "
       else None;
     tarball := λ _, Some (Fs.Dir [("package", template)]);
     installDependencies := λ _ _ d, Some d;
     run_build := λ _ _ d, Some d;
     createExampleApp := λ _ _ _ d, Some d |}.

Definition options (source : option string) : CommandOptions.t :=
  {| CommandOptions.target := None;
     CommandOptions.source := source;
     CommandOptions.withReadme := false;
     CommandOptions.withChangelog := false;
     CommandOptions.example := true |}.

(** The answers to the seven data prompts. *)
Definition answers : list JS.value :=
  map JS.Str ["AcmeWidget"; "A widget"; "com.acme.widget";
              "Ann"; "ann@acme.com"; "https://acme.com";
              "https://github.com/acme/widget"].

Definition scene (replies : list Prompts.reply) (work : list (string * Fs.node)) : world :=
  {| replies := replies; disk := Fs.Dir [("work", Fs.Dir work)]; log := [] |}.

(** A local template next to an empty working directory. *)
Definition with_template : world := scene [] [("tpl", template)].

Definition rendered_once : world :=
  Eval vm_compute in (createModuleFromTemplate "/work/tpl" "/work/out" data with_template).2.

(** The target directory exists and is not empty; the user gives the slug
    and says no to the confirmation. *)
Definition declining : world :=
  scene [Prompts.Submit (JS.Str "acme-widget"); Prompts.Submit (JS.Bool false)]
        [("acme-widget", Fs.Dir [("notes.txt", Fs.File "keep")])].

Definition declining_after_slug : world :=
  Eval vm_compute in (askForPackageSlugAsync E None declining).2.

Definition declining_after_ensureDir : world :=
  Eval vm_compute in (ensureDir "/work/acme-widget" declining_after_slug).2.

(** An empty working directory and a user who answers every prompt. *)
Definition answering : world :=
  scene (map Prompts.Submit (JS.Str "acme-widget" :: answers)) [].

End Sample.

(* ================================================================== *)
(** * Vocabulary of the further properties *)
(* ================================================================== *)

(** ** Trees *)

(** No directory of the tree lists a name twice. *)
Fixpoint unique_names (n : Fs.node) : bool :=
  match n with
  | Fs.File _ => true
  | Fs.Dir es =>
      (fix all (es : list (string * Fs.node)) : bool :=
         match es with
         | [] => true
         | (name, x) :: rest =>
             negb (existsb (String.eqb name) (map fst rest))
             && unique_names x && all rest
         end) es
  end.

(** The segments of the directory a scan is in. *)
Definition dir_segments (dir : option string) : list string :=
  match dir with
  | Some d => Path.split Path.sep_char d
  | None => []
  end.

(** A batch of writes that stops at the first one that fails. *)
Fixpoint written (ws : list (list string * string)) (t : Fs.node) : Fs.node :=
  match ws with
  | [] => t
  | (p, c) :: rest =>
      match Fs.write p c t with
      | Some t' => written rest t'
      | None => t
      end
  end.

(** ** Text *)

Module Utf8.

Definition continuation (n : nat) : bool := ((128 <=? n) && (n <=? 191))%nat.

(** The number of bytes of the well-formed UTF-8 sequence at the head of
    the string (the Unicode standard, table 3-7: no overlong form, no
    surrogate, nothing above U+10FFFF); 0 when there is none. *)
Definition sequence_length (s : string) : nat :=
  match s with
  | String a s1 =>
      let n := nat_of_ascii a in
      if (n <? 128)%nat then 1
      else match s1 with
           | String b s2 =>
               let m := nat_of_ascii b in
               if ((194 <=? n) && (n <=? 223))%nat && continuation m then 2
               else match s2 with
                    | String c s3 =>
                        let k := nat_of_ascii c in
                        if (((n =? 224) && (160 <=? m) && (m <=? 191))
                            || ((225 <=? n) && (n <=? 236) && continuation m)
                            || ((n =? 237) && (128 <=? m) && (m <=? 159))
                            || ((238 <=? n) && (n <=? 239) && continuation m))%nat
                           && continuation k then 3
                        else match s3 with
                             | String d _ =>
                                 if (((n =? 240) && (144 <=? m) && (m <=? 191))
                                     || ((241 <=? n) && (n <=? 243) && continuation m)
                                     || ((n =? 244) && (128 <=? m) && (m <=? 143)))%nat
                                    && continuation k
                                    && continuation (nat_of_ascii d) then 4
                                 else 0
                             | EmptyString => 0
                             end
                    | EmptyString => 0
                    end
           | EmptyString => 0
           end
  | EmptyString => 0
  end.

Fixpoint valid_from (skip : nat) (s : string) : bool :=
  match s with
  | EmptyString => (skip =? 0)%nat
  | String a s' =>
      match skip with
      | S n => valid_from n s'
      | O =>
          match sequence_length (String a s') with
          | S n => valid_from n s'
          | O => false
          end
      end
  end.

(** Well-formed UTF-8: the bytes that reading with [encoding: 'utf8'] and
    writing with it give back as they are; anything else comes back with
    U+FFFD in it. *)
Definition valid (s : string) : bool := valid_from 0 s.

End Utf8.

(** Every discovered file of the template tree is well-formed UTF-8. *)
Definition decodable (T : Fs.node) : bool :=
  forallb (λ file, match Fs.content (Path.split Path.sep_char file) T with
                   | Some c => Utf8.valid c
                   | None => true
                   end)
          (getFilesAsync None T).

(** ** Logs *)

(** Every event an asynchronous function adds to the log satisfies [P]. *)
Definition only {A} (P : event → Prop) (m : M A) : Prop :=
  ∀ w o w', m w = (o, w') → ∃ evs, log w' = log w ++ evs ∧ Forall P evs.

(** Every value an asynchronous function returns satisfies [Q]. *)
Definition returns {A} (Q : A → Prop) (m : M A) : Prop :=
  ∀ w a w', m w = (Returned a, w') → Q a.


(** How the events of a run name the target directory: the directory it
    creates, downloads to, installs, builds and makes the example in is
    [targetDir]; the path of a file it writes is [path.join] of
    [targetDir] and a relative path, which does not keep the file inside
    [targetDir] (a relative path that climbs with [".."] leaves it); and
    what it removes is the [package] directory of a downloaded template
    and the [README.md] and [CHANGELOG.md] of [targetDir], each only when
    the options say so. *)
Definition aimed_at (options : CommandOptions.t) (targetDir : string) (e : event) : Prop :=
  match e with
  | EnsureDir d | DownloadTarball _ d | InstallDependencies _ d | RunBuild _ d
  | CreateExampleApp d _ => d = targetDir
  | Remove p =>
      (p = Path.join [targetDir; "package"]
       ∧ JS.truthy (of_option (CommandOptions.source options)) = false)
      ∨ (p = Path.join [targetDir; "README.md"]
         ∧ CommandOptions.withReadme options = false)
      ∨ (p = Path.join [targetDir; "CHANGELOG.md"]
         ∧ CommandOptions.withChangelog options = false)
  | OutputFile p _ => ∃ r, p = Path.join [targetDir; r]
  | Prompted _ | ConsoleLog _ | StepStarted _ | StepSucceeded _ | NpmView _ => True
  end.

(** The events of a run that has no template yet: prompts, lines on the
    console, the creation of the target directory, the start of a step
    and the registry lookup. *)
Definition preparatory (e : event) : Prop :=
  match e with
  | Prompted _ | ConsoleLog _ | StepStarted _ | EnsureDir _ | NpmView _ => True
  | DownloadTarball _ _ | OutputFile _ _ | Remove _ | StepSucceeded _
  | InstallDependencies _ _ | RunBuild _ _ | CreateExampleApp _ _ => False
  end.

(** The part of [main] that follows the confirmation, as a function of
    the target directory and the slug; [main_unfold] below puts it back
    in its place. *)
Definition main_after_confirmation (E : env) (options : CommandOptions.t)
    (targetDir : string) (slug : JS.value) : M unit :=
  let options := {| CommandOptions.target := Some targetDir;
                    CommandOptions.source := CommandOptions.source options;
                    CommandOptions.withReadme := CommandOptions.withReadme options;
                    CommandOptions.withChangelog := CommandOptions.withChangelog options;
                    CommandOptions.example := CommandOptions.example options |} in
  data <- askForSubstitutionDataAsync E slug ;;
  emit (ConsoleLog EmptyString) ;;;
  packageManager <- try "resolvePackageManager" (resolvePackageManager E) ;;
  packagePath <- packagePath E options targetDir ;;
  newStep "Creating the module from template files"
    (createModuleFromTemplate packagePath targetDir data ;;;
     succeed "Created the module from template files") ;;;
  newStep "Installing module dependencies"
    (emit (InstallDependencies packageManager targetDir) ;;;
     on_disk "installDependencies" (installDependencies E packageManager targetDir) ;;;
     succeed "Installed module dependencies") ;;;
  newStep "Compiling TypeScript files"
    (emit (RunBuild packageManager targetDir) ;;;
     on_disk "build" (run_build E packageManager targetDir) ;;;
     succeed "Compiled TypeScript files") ;;;
  (if negb (JS.truthy (of_option (CommandOptions.source options)))
   then remove packagePath else ret tt) ;;;
  (if negb (CommandOptions.withReadme options)
   then remove (Path.join [targetDir; "README.md"]) else ret tt) ;;;
  (if negb (CommandOptions.withChangelog options)
   then remove (Path.join [targetDir; "CHANGELOG.md"]) else ret tt) ;;;
  (if CommandOptions.example options
   then emit (CreateExampleApp targetDir packageManager) ;;;
        on_disk "createExampleApp" (createExampleApp E data targetDir packageManager)
   else ret tt) ;;;
  emit (ConsoleLog EmptyString) ;;;
  emit (ConsoleLog "Successfully created Expo module").

(** The part of [main] that follows [ensureDir]. *)
Definition main_steps (E : env) (options : CommandOptions.t) (targetDir : string)
    (slug : JS.value) : M unit :=
  confirmTargetDirAsync targetDir ;;;
  main_after_confirmation E options targetDir slug.

(** ** More sample runs *)

Module Scene.

(** The sample environment with data prompts that are skipped but for
    the name and the package. *)
Definition skipping : env :=
  {| CWD := CWD Sample.E;
     EXPO_BETA := EXPO_BETA Sample.E;
     getSlugPrompt := getSlugPrompt Sample.E;
     getSubstitutionDataPrompts := λ _,
       [Sample.text "name";
        {| Prompts.type := None; Prompts.name := "description";
           Prompts.message := "description"; Prompts.initial := JS.Str "A widget" |};
        Sample.text "package";
        {| Prompts.type := None; Prompts.name := "authorName";
           Prompts.message := "authorName"; Prompts.initial := JS.Str "Ann" |}];
     resolvePackageManager := resolvePackageManager Sample.E;
     npm_view_stdout := npm_view_stdout Sample.E;
     tarball := tarball Sample.E;
     installDependencies := installDependencies Sample.E;
     run_build := run_build Sample.E;
     createExampleApp := createExampleApp Sample.E |}.

(** The sample environment without a registry. *)
Definition offline : env :=
  {| CWD := CWD Sample.E;
     EXPO_BETA := EXPO_BETA Sample.E;
     getSlugPrompt := getSlugPrompt Sample.E;
     getSubstitutionDataPrompts := getSubstitutionDataPrompts Sample.E;
     resolvePackageManager := resolvePackageManager Sample.E;
     npm_view_stdout := λ _, None;
     tarball := tarball Sample.E;
     installDependencies := installDependencies Sample.E;
     run_build := run_build Sample.E;
     createExampleApp := createExampleApp Sample.E |}.

(** A template with one file that has no tags, next to an empty working
    directory. *)
Definition with_plain_file : world :=
  Sample.scene [] [("tpl", Fs.Dir [("$gitignore", Fs.File "node_modules/")])].

(** The sample run with a target given on the command line. *)
Definition answering_after_slug : world :=
  Eval vm_compute in (askForPackageSlugAsync Sample.E (Some "my-module") Sample.answering).2.

(** The sample run on a new target directory, after the slug prompt and
    after [ensureDir]. *)
Definition new_after_slug : world :=
  Eval vm_compute in (askForPackageSlugAsync Sample.E None Sample.answering).2.

Definition new_after_ensureDir : world :=
  Eval vm_compute in (ensureDir "/work/acme-widget" new_after_slug).2.


End Scene.
(* ================================================================== *)
(** * Facts: strings *)
(* ================================================================== *)

Lemma string_app_cons a s t : String a s +:+ t = String a (s +:+ t).
Proof. reflexivity. Qed.

Lemma string_app_nil s : EmptyString +:+ s = s.
Proof. reflexivity. Qed.

Lemma string_app_assoc a b c : (a +:+ b) +:+ c = a +:+ (b +:+ c).
Proof.
  induction a as [|x a IH]; [done|]. rewrite !string_app_cons. by rewrite IH.
Qed.

Lemma string_app_empty_r s : s +:+ EmptyString = s.
Proof.
  induction s as [|a s IH]; [done|].
  change (String a (s +:+ EmptyString) = String a s). by rewrite IH.
Qed.

Lemma string_app_nonempty a x b : a +:+ String x b ≠ EmptyString.
Proof. by destruct a. Qed.

Lemma eqb_app_nonempty a x b : String.eqb (a +:+ String x b) EmptyString = false.
Proof. apply String.eqb_neq, string_app_nonempty. Qed.

Lemma substring_all s : String.substring 0 (String.length s) s = s.
Proof. induction s as [|a s IH]; [done|]. simpl. by rewrite IH. Qed.

Lemma replace_first_occurrence a b rep x :
  JS.contains x a = false →
  JS.replace (String x EmptyString) rep (a +:+ String x b) = a +:+ rep +:+ b.
Proof.
  induction a as [|y a IH]; intros Ha.
  - rewrite !string_app_nil. cbn [JS.replace String.prefix].
    destruct (Ascii.ascii_dec x x); [|done].
    cbn [String.length String.substring Nat.sub].
    assert (String.prefix EmptyString b = true) as -> by (by destruct b).
    by rewrite Nat.sub_0_r, substring_all.
  - cbn [JS.contains] in Ha. apply orb_false_iff in Ha as [Hy Ha].
    rewrite !string_app_cons. cbn [JS.replace String.prefix].
    destruct (Ascii.ascii_dec x y) as [->|Hxy]; [by rewrite Ascii.eqb_refl in Hy|].
    by rewrite (IH Ha).
Qed.
(* ================================================================== *)
(** * Facts: paths *)
(* ================================================================== *)

Lemma split_nonempty c s : Path.split c s ≠ [].
Proof. destruct s as [|a s]; simpl; [done|]. destruct (Ascii.eqb a c); [done|]. by destruct (Path.split c s). Qed.

Lemma split_app c a b :
  Path.split c (a +:+ String c b) = Path.split c a ++ Path.split c b.
Proof.
  induction a as [|x a IH]; simpl.
  - by rewrite Ascii.eqb_refl.
  - destruct (Ascii.eqb x c); [by rewrite IH|].
    rewrite IH. pose proof (split_nonempty c a). by destruct (Path.split c a).
Qed.

Lemma split_no_sep c s : JS.contains c s = false → Path.split c s = [s].
Proof.
  induction s as [|x s IH]; simpl; [done|].
  intros [Hx Hs]%orb_false_iff. rewrite Hx. by rewrite (IH Hs).
Qed.

Lemma concat_split c s : String.concat (String c EmptyString) (Path.split c s) = s.
Proof.
  induction s as [|x s IH]; simpl; [done|].
  destruct (Ascii.eqb_spec x c) as [->|Hx].
  - pose proof (split_nonempty c s). destruct (Path.split c s) eqn:E; [done|].
    simpl in *. by rewrite IH.
  - pose proof (split_nonempty c s). destruct (Path.split c s) as [|h t] eqn:E; [done|].
    simpl in *. destruct t; simpl in *; by rewrite <-IH.
Qed.

Lemma fold_normalize_plain b segs : ∀ stack,
  Forall (λ s, Path.plain_segment s = true) segs →
  fold_left (Path.normalize_step b) segs stack = rev segs ++ stack.
Proof.
  induction segs as [|s segs IH]; intros stack H; [done|].
  inversion_clear H as [|?? Hs Hrest]. simpl. rewrite (IH _ Hrest).
  rewrite <-app_assoc. simpl. f_equal.
  unfold Path.normalize_step, Path.plain_segment in *.
  destruct (String.eqb s EmptyString), (String.eqb s "."), (String.eqb s ".."); simpl in *; done.
Qed.

Lemma normalizeString_plain b segs :
  Forall (λ s, Path.plain_segment s = true) segs →
  Path.normalizeString segs b = segs.
Proof.
  intros H. unfold Path.normalizeString. rewrite (fold_normalize_plain _ _ _ H).
  by rewrite app_nil_r, rev_involutive.
Qed.

Lemma last_is_sep_app a b : b ≠ EmptyString → Path.last_is_sep (a +:+ b) = Path.last_is_sep b.
Proof.
  intros Hb. induction a as [|x a IH]; [done|].
  simpl. destruct (a +:+ b) eqn:E; [|done].
  destruct a; simpl in E; [done | discriminate].
Qed.

Lemma last_is_sep_no_sep s : JS.contains Path.sep_char s = false → Path.last_is_sep s = false.
Proof.
  induction s as [|x s IH]; [done|]. simpl.
  intros [Hx Hs]%orb_false_iff. destruct s; [done|]. by apply IH.
Qed.

Lemma plain_path_first d :
  Forall (λ s, Path.plain_segment s = true) (Path.split Path.sep_char d) →
  d ≠ EmptyString ∧ Path.first_is_sep d = false.
Proof.
  destruct d as [|x d]; simpl.
  - intros H. by inversion H.
  - intros H. split; [done|]. destruct (Ascii.eqb x Path.sep_char); [|done].
    by inversion H.
Qed.

Lemma entry_name_spec s :
  Path.entry_name s = true →
  Path.plain_segment s = true ∧ JS.contains Path.sep_char s = false.
Proof.
  unfold Path.entry_name, Path.plain_segment.
  destruct (JS.contains Path.sep_char s); rewrite ?andb_true_r, ?andb_false_r; done.
Qed.

(** [path.join(dir, file)] for a clean relative directory and an entry name. *)
Lemma join_dir_file d file :
  Forall (λ s, Path.plain_segment s = true) (Path.split Path.sep_char d) →
  Path.entry_name file = true →
  Path.join [d; file] = d +:+ Path.sep +:+ file.
Proof.
  intros Hd Hf. destruct (entry_name_spec _ Hf) as [Hp Hc].
  destruct (plain_path_first _ Hd) as [Hne Hfirst].
  assert (file ≠ EmptyString) as Hfne by (intros ->; done).
  unfold Path.join. simpl.
  destruct (String.eqb_spec d EmptyString); [done|].
  destruct (String.eqb_spec file EmptyString); [done|]. simpl.
  unfold Path.normalize.
  change (d +:+ Path.sep +:+ file) with (d +:+ String Path.sep_char file).
  rewrite eqb_app_nonempty.
  assert (Path.first_is_sep (d +:+ String Path.sep_char file) = false) as ->.
  { destruct d; [done|]. exact Hfirst. }
  rewrite last_is_sep_app by done.
  assert (Path.last_is_sep (String Path.sep_char file) = false) as ->.
  { change (String Path.sep_char file) with (String Path.sep_char EmptyString +:+ file).
    rewrite last_is_sep_app by done. by apply last_is_sep_no_sep. }
  rewrite split_app, (split_no_sep _ _ Hc).
  rewrite normalizeString_plain by (apply Forall_app; split; [done|by constructor]).
  rewrite <-(split_no_sep _ _ Hc), <-split_app.
  change Path.sep with (String Path.sep_char EmptyString). rewrite concat_split.
  rewrite eqb_app_nonempty. simpl. 
  apply string_app_empty_r.
Qed.


(** ** [normalize] does not change where a path leads *)

Lemma filter_not_dotdot_all below :
  Forall (λ s, s = "..") below → List.filter not_dotdot below = [].
Proof. induction 1 as [|? ? -> ? IH]; [done|]. simpl. exact IH. Qed.

Lemma filter_dotdot_cons below :
  List.filter not_dotdot (".." :: below) = List.filter not_dotdot below.
Proof. done. Qed.

Lemma filter_keep_cons top below :
  String.eqb top ".." = false →
  List.filter not_dotdot (top :: below) = top :: List.filter not_dotdot below.
Proof. intros H. simpl. unfold not_dotdot at 1. by rewrite H. Qed.

Lemma step_shaped seg stack :
  shaped stack →
  shaped (Path.normalize_step true stack seg)
  ∧ Path.normalize_step false (List.filter not_dotdot stack) seg
    = List.filter not_dotdot (Path.normalize_step true stack seg).
Proof.
  intros Hs. unfold Path.normalize_step.
  destruct (String.eqb seg EmptyString || String.eqb seg ".") eqn:Hskip; [done|].
  apply orb_false_iff in Hskip as [He Hd].
  destruct (String.eqb seg "..") eqn:Hdd.
  - apply String.eqb_eq in Hdd as ->.
    destruct stack as [|top below]; [simpl; by repeat constructor|].
    destruct Hs as [Htop Hs].
    destruct (String.eqb top "..") eqn:Ht.
    + apply String.eqb_eq in Ht as ->.
      split; [simpl; split_and!; [by constructor|done|done]|].
      by rewrite !filter_dotdot_cons, (filter_not_dotdot_all _ Htop).
    + rewrite (filter_keep_cons _ _ Ht). by rewrite Ht.
  - split.
    + simpl. rewrite Hdd. split; [|done].
      unfold Path.plain_segment. by rewrite He, Hd, Hdd.
    + by rewrite (filter_keep_cons _ _ Hdd).
Qed.

Lemma fold_shaped segs : ∀ stack,
  shaped stack →
  shaped (fold_left (Path.normalize_step true) segs stack)
  ∧ fold_left (Path.normalize_step false) segs (List.filter not_dotdot stack)
    = List.filter not_dotdot (fold_left (Path.normalize_step true) segs stack).
Proof.
  induction segs as [|seg segs IH]; intros stack Hs; [done|]. simpl.
  destruct (step_shaped seg stack Hs) as [Hs' ->]. by apply IH.
Qed.

Lemma step_plain seg stack :
  Forall (λ s, Path.plain_segment s = true) stack →
  Forall (λ s, Path.plain_segment s = true) (Path.normalize_step false stack seg).
Proof.
  intros Hs. unfold Path.normalize_step.
  destruct (String.eqb seg EmptyString || String.eqb seg ".") eqn:Hskip; [done|].
  apply orb_false_iff in Hskip as [He Hd].
  destruct (String.eqb seg "..") eqn:Hdd.
  - destruct stack as [|top below]; [done|]. inversion_clear Hs as [|?? Htop Hb].
    unfold Path.plain_segment in Htop.
    destruct (String.eqb top ".."); [|done]. by rewrite !andb_false_r in Htop.
  - constructor; [|done]. unfold Path.plain_segment. by rewrite He, Hd, Hdd.
Qed.

Lemma fold_plain segs : ∀ stack,
  Forall (λ s, Path.plain_segment s = true) stack →
  Forall (λ s, Path.plain_segment s = true)
         (fold_left (Path.normalize_step false) segs stack).
Proof.
  induction segs as [|seg segs IH]; intros stack Hs; [done|].
  simpl. apply IH. by apply step_plain.
Qed.

Lemma plain_shaped stack :
  Forall (λ s, Path.plain_segment s = true) stack →
  shaped stack ∧ List.filter not_dotdot stack = stack.
Proof.
  induction 1 as [|top below Htop _ [IH1 IH2]]; [done|].
  assert (String.eqb top ".." = false) as E.
  { unfold Path.plain_segment in Htop. destruct (String.eqb top ".."); [|done].
    by rewrite !andb_false_r in Htop. }
  rewrite (filter_keep_cons _ _ E), IH2. split; [|done].
  simpl. by rewrite E.
Qed.

(** The stack of either flavour of [normalizeString]. *)
Lemma stack_shaped b segs :
  let stack := fold_left (Path.normalize_step b) segs [] in
  shaped stack
  ∧ List.filter not_dotdot stack = fold_left (Path.normalize_step false) segs [].
Proof.
  destruct b; simpl.
  - destruct (fold_shaped segs [] I) as [? H]. split; [done|]. by rewrite <-H.
  - apply plain_shaped, fold_plain. constructor.
Qed.

(** Walking a normalised stack from the bottom rebuilds what is not [".."]. *)
Lemma fold_rev_shaped stack :
  shaped stack →
  fold_left (Path.normalize_step false) (rev stack) [] = List.filter not_dotdot stack.
Proof.
  induction stack as [|top below IH]; intros Hs; [done|].
  destruct Hs as [Htop Hs]. simpl rev. rewrite fold_left_app, (IH Hs).
  cbn [fold_left]. unfold Path.normalize_step.
  destruct (String.eqb top "..") eqn:E.
  - apply String.eqb_eq in E as ->.
    by rewrite filter_dotdot_cons, (filter_not_dotdot_all _ Htop).
  - rewrite (filter_keep_cons _ _ E).
    unfold Path.plain_segment in Htop. rewrite E in Htop.
    destruct (String.eqb top EmptyString), (String.eqb top "."); done.
Qed.

Lemma split_segments_no_sep c s : Forall (λ x, JS.contains c x = false) (Path.split c s).
Proof.
  induction s as [|a s IH]; simpl; [by repeat constructor|].
  destruct (Ascii.eqb a c) eqn:E; [by constructor|].
  pose proof (split_nonempty c s). destruct (Path.split c s) as [|h t]; [done|].
  inversion_clear IH. constructor; [|done]. simpl. by rewrite E.
Qed.

Lemma step_no_sep b seg stack :
  JS.contains Path.sep_char seg = false →
  Forall (λ x, JS.contains Path.sep_char x = false) stack →
  Forall (λ x, JS.contains Path.sep_char x = false) (Path.normalize_step b stack seg).
Proof.
  intros Hseg Hs. unfold Path.normalize_step.
  destruct (_ || _); [done|]. destruct (String.eqb seg "..").
  - destruct stack as [|top below]; [by destruct b; repeat constructor|].
    inversion Hs; subst. destruct (String.eqb top ".."); [by constructor|done].
  - by constructor.
Qed.

Lemma fold_no_sep b segs : ∀ stack,
  Forall (λ x, JS.contains Path.sep_char x = false) segs →
  Forall (λ x, JS.contains Path.sep_char x = false) stack →
  Forall (λ x, JS.contains Path.sep_char x = false)
         (fold_left (Path.normalize_step b) segs stack).
Proof.
  induction segs as [|seg segs IH]; intros stack Hsegs Hs; [done|].
  inversion_clear Hsegs. simpl. apply IH; [done|]. by apply step_no_sep.
Qed.

Lemma split_concat segs :
  segs ≠ [] → Forall (λ x, JS.contains Path.sep_char x = false) segs →
  Path.split Path.sep_char (String.concat Path.sep segs) = segs.
Proof.
  induction segs as [|x segs IH]; [done|]. intros _ Hall.
  inversion_clear Hall as [|?? Hx Hrest].
  destruct segs as [|y segs]; [by apply split_no_sep|].
  change (String.concat Path.sep (x :: y :: segs))
    with (x +:+ String Path.sep_char (String.concat Path.sep (y :: segs))).
  rewrite split_app, (split_no_sep _ _ Hx), IH; done.
Qed.

Lemma locate_cons_sep p : Fs.locate (String Path.sep_char p) = Fs.locate p.
Proof.
  unfold Fs.locate, Path.normalizeString. cbn [Path.split].
  by rewrite Ascii.eqb_refl.
Qed.

Lemma locate_snoc_sep p : Fs.locate (p +:+ "/") = Fs.locate p.
Proof.
  unfold Fs.locate, Path.normalizeString.
  change (p +:+ "/") with (p +:+ String Path.sep_char EmptyString).
  by rewrite split_app, fold_left_app.
Qed.

Theorem locate_normalize p : Fs.locate (Path.normalize p) = Fs.locate p.
Proof.
  unfold Path.normalize.
  destruct (String.eqb_spec p EmptyString) as [->|Hp]; [done|].
  set (abs := Path.first_is_sep p). set (trail := Path.last_is_sep p).
  set (segs := Path.normalizeString (Path.split Path.sep_char p) (negb abs)).
  pose proof (stack_shaped (negb abs) (Path.split Path.sep_char p)) as [Hshape Hfilter].
  simpl in Hshape, Hfilter.
  assert (Fs.locate (String.concat Path.sep segs) = Fs.locate p) as Hbody.
  { destruct (decide (segs = [])) as [Hnil|Hne].
    - rewrite Hnil. unfold Fs.locate at 2. unfold Path.normalizeString.
      rewrite <-Hfilter. subst segs. unfold Path.normalizeString in Hnil.
      apply (f_equal (@rev string)) in Hnil. rewrite rev_involutive in Hnil.
      by rewrite Hnil.
    - unfold Fs.locate. rewrite split_concat; [|done|].
      + unfold Path.normalizeString at 1. subst segs. unfold Path.normalizeString.
        by rewrite fold_rev_shaped, Hfilter.
      + subst segs. unfold Path.normalizeString. apply Forall_rev.
        apply fold_no_sep; [apply split_segments_no_sep|constructor]. }
  destruct (String.eqb_spec (String.concat Path.sep segs) EmptyString) as [Hempty|Hbne].
  - rewrite Hempty in Hbody. rewrite <-Hbody. by destruct abs, trail.
  - rewrite <-Hbody. destruct abs, trail; simpl.
    + change ("/" +:+ String.concat Path.sep segs +:+ "/")
        with (String Path.sep_char (String.concat Path.sep segs +:+ "/")).
      by rewrite locate_cons_sep, locate_snoc_sep.
    + change ("/" +:+ String.concat Path.sep segs +:+ EmptyString)
        with (String Path.sep_char (String.concat Path.sep segs +:+ EmptyString)).
      by rewrite locate_cons_sep, string_app_empty_r.
    + change (EmptyString +:+ String.concat Path.sep segs +:+ "/")
        with (String.concat Path.sep segs +:+ "/").
      by rewrite locate_snoc_sep.
    + change (EmptyString +:+ String.concat Path.sep segs +:+ EmptyString)
        with (String.concat Path.sep segs +:+ EmptyString).
      by rewrite string_app_empty_r.
Qed.

(** Where [path.join(a, b)] leads, for a clean relative [b]. *)
Lemma locate_join a b :
  Forall (λ s, Path.plain_segment s = true) (Path.split Path.sep_char b) →
  Fs.locate (Path.join [a; b]) = Fs.locate a ++ Path.split Path.sep_char b.
Proof.
  intros Hb. destruct (plain_path_first _ Hb) as [Hne _].
  assert (Fs.locate b = Path.split Path.sep_char b) as Hlb.
  { unfold Fs.locate. by apply normalizeString_plain. }
  unfold Path.join. simpl.
  destruct (String.eqb_spec b EmptyString); [done|].
  destruct (String.eqb_spec a EmptyString) as [->|Ha]; simpl.
  - by rewrite locate_normalize.
  - rewrite locate_normalize.
    change (a +:+ Path.sep +:+ b) with (a +:+ String Path.sep_char b).
    unfold Fs.locate, Path.normalizeString.
    rewrite split_app, fold_left_app, (fold_normalize_plain _ _ _ Hb).
    by rewrite rev_app_distr, rev_involutive.
Qed.
(* ================================================================== *)
(** * Facts: the template scanner *)
(* ================================================================== *)

Lemma scan_text_cons opts data a s1 :
  Ascii.eqb a (Ejs.openDelimiter opts) && Ejs.starts_with "%" s1 = false →
  Ascii.eqb a "%" && Ejs.starts_with (Ejs.closeDelimiter opts) s1 = false →
  Ejs.scan opts data Ejs.Text (String a s1) = String a <$> Ejs.scan opts data Ejs.Text s1.
Proof. intros H1 H2. simpl. by rewrite H1, H2. Qed.

Lemma scan_plain opts data s :
  Ejs.plain (Ejs.openDelimiter opts) (Ejs.closeDelimiter opts) s = true →
  Ejs.scan opts data Ejs.Text s = Some s.
Proof.
  induction s as [|a s IH]; intros Hp; [done|].
  simpl in Hp. apply andb_true_iff in Hp as [[H1 H2]%andb_true_iff H3].
  apply negb_true_iff in H1, H2.
  rewrite scan_text_cons by done. by rewrite (IH H3).
Qed.

Lemma plain_tail o c a s : Ejs.plain o c (String a s) = true → Ejs.plain o c s = true.
Proof. simpl. by intros [_ ?]%andb_true_iff. Qed.

Lemma plain_replace_leading_dollar o c s :
  Ejs.plain o c s = true → Ejs.plain o c (JS.replace_leading_dollar s) = true.
Proof.
  destruct s as [|a s]; [done|]. unfold JS.replace_leading_dollar.
  destruct (Ascii.ascii_dec a "$") as [->|Ha].
  - apply plain_tail.
  - intros H. by destruct a as [[] [] [] [] [] [] [] []].
Qed.

Lemma replace_leading_dollar_app dir s :
  dir ≠ EmptyString →
  JS.replace_leading_dollar (dir +:+ s) = JS.replace_leading_dollar dir +:+ s.
Proof.
  destruct dir as [|a dir]; [done|]. intros _. rewrite string_app_cons.
  unfold JS.replace_leading_dollar.
  by destruct a as [[] [] [] [] [] [] [] []].
Qed.

Section scanner.
Context (opts : Ejs.options) (data : SubstitutionData).
Let o := Ejs.openDelimiter opts.
Let c := Ejs.closeDelimiter opts.

(** One step of the scanner. *)
Lemma scan_cons m a s1 :
  Ejs.scan opts data m (String a s1)
  = match m with
    | Ejs.Text =>
        if Ascii.eqb a o && Ejs.starts_with "%" s1 then
          match s1 with
          | String _ (String k s3) =>
              if Ascii.eqb k "=" then Ejs.scan opts data (Ejs.InTag Ejs.Escaped EmptyString) s3
              else if Ascii.eqb k "-" then Ejs.scan opts data (Ejs.InTag Ejs.Raw EmptyString) s3
              else if Ascii.eqb k "#"
                   then Ejs.scan opts data (Ejs.InTag Ejs.Comment EmptyString) s3
              else None
          | _ => None
          end
        else if Ascii.eqb a "%" && Ejs.starts_with c s1 then None
        else String a <$> Ejs.scan opts data Ejs.Text s1
    | Ejs.InTag t code =>
        if Ascii.eqb a "%" && Ejs.starts_with2 "%" c s1 then None
        else if Ascii.eqb a "%" && Ejs.starts_with c s1 then
          match s1 with
          | String _ s2 =>
              out ← Ejs.emit opts data t code;
              rest ← Ejs.scan opts data Ejs.Text s2;
              Some (out +:+ rest)
          | EmptyString => None
          end
        else if Ascii.eqb a o && Ejs.starts_with "%" s1 then None
        else if (Ascii.eqb a "-" || Ascii.eqb a "_") && Ejs.starts_with2 "%" c s1
             then None
        else Ejs.scan opts data (Ejs.InTag t (code +:+ String a EmptyString)) s1
    end.
Proof. reflexivity. Qed.

Context (x : ascii) (s' : string).
Hypothesis x_not_percent : x ≠ "%"%char.
Hypothesis x_not_close : x ≠ c.

Lemma starts_with_ext k a :
  k ≠ x → Ejs.starts_with k (a +:+ String x s') = Ejs.starts_with k a.
Proof.
  intros Hk. destruct a as [|y a]; [|done].
  simpl. by apply Ascii.eqb_neq.
Qed.

Lemma starts_with2_ext k1 k2 a :
  k1 ≠ x → k2 ≠ x →
  Ejs.starts_with2 k1 k2 (a +:+ String x s') = Ejs.starts_with2 k1 k2 a.
Proof.
  intros H1 H2. destruct a as [|y a].
  - simpl. by rewrite (proj2 (Ascii.eqb_neq _ _) H1).
  - rewrite string_app_cons. cbn [Ejs.starts_with2].
    by rewrite starts_with_ext.
Qed.

Let continuation := Ejs.scan opts data Ejs.Text (String x s').

(** A template that renders by itself renders the same way in front of
    text that starts with a harmless character. *)
Lemma scan_app_len n : ∀ a m ra,
  String.length a ≤ n →
  Ejs.scan opts data m a = Some ra →
  Ejs.scan opts data m (a +:+ String x s') = (λ r, ra +:+ r) <$> continuation.
Proof.
  induction n as [|n IH]; intros a m ra Hlen Hscan.
  { destruct a; [|simpl in Hlen; lia]. destruct m; [|done].
    injection Hscan as <-. rewrite string_app_nil.
    fold continuation. by destruct continuation. }
  destruct a as [|a0 a1].
  { destruct m; [|done]. injection Hscan as <-. rewrite string_app_nil.
    fold continuation. by destruct continuation. }
  simpl in Hlen. rewrite string_app_cons. rewrite scan_cons in Hscan |- *.
  rewrite !starts_with_ext, !starts_with2_ext by (done || by apply not_eq_sym).
  destruct m as [|t code].
  - destruct (Ascii.eqb a0 o && Ejs.starts_with "%" a1).
    + destruct a1 as [|p [|k s3]]; [done..|]. rewrite !string_app_cons.
      simpl in Hlen.
      destruct (Ascii.eqb k "="); [apply IH; [lia|done]|].
      destruct (Ascii.eqb k "-"); [apply IH; [lia|done]|].
      destruct (Ascii.eqb k "#"); [apply IH; [lia|done]|]. done.
    + destruct (Ascii.eqb a0 "%" && Ejs.starts_with c a1); [done|].
      destruct (Ejs.scan opts data Ejs.Text a1) as [ra1|] eqn:E; [|done].
      injection Hscan as <-. rewrite (IH a1 Ejs.Text ra1); [|lia|done].
      by destruct continuation.
  - destruct (Ascii.eqb a0 "%" && Ejs.starts_with2 "%" c a1); [done|].
    destruct (Ascii.eqb a0 "%" && Ejs.starts_with c a1).
    + destruct a1 as [|p s2]; [done|]. rewrite string_app_cons.
      destruct (Ejs.emit opts data t code) as [out|]; [|done].
      cbn [mbind option_bind] in Hscan |- *. simpl in Hlen.
      destruct (Ejs.scan opts data Ejs.Text s2) as [rest|] eqn:E; [|done].
      injection Hscan as <-. rewrite (IH s2 Ejs.Text rest); [|lia|done].
      destruct continuation; simpl; [|done].
      by rewrite string_app_assoc.
    + destruct (Ascii.eqb a0 o && Ejs.starts_with "%" a1); [done|].
      destruct ((Ascii.eqb a0 "-" || Ascii.eqb a0 "_")
                && Ejs.starts_with2 "%" c a1); [done|].
      apply IH; [lia|done].
Qed.
End scanner.

Lemma render_app opts data a ra x s' :
  x ≠ "%"%char → x ≠ Ejs.closeDelimiter opts →
  Ejs.render a data opts = Some ra →
  Ejs.render (a +:+ String x s') data opts
  = (λ r, ra +:+ r) <$> Ejs.render (String x s') data opts.
Proof. intros ???. by eapply scan_app_len. Qed.
(* ================================================================== *)
(** * Facts: the file system *)
(* ================================================================== *)

Module FsFacts.
Import Fs.

Section entries.
Implicit Types (es : list (string * node)) (s : string) (x : node).

Lemma lookup_set_entry_eq s x es : lookup_entry s (set_entry s x es) = Some x.
Proof.
    induction es as [|[n y] es IH]; simpl.
    - by rewrite String.eqb_refl.
    - destruct (String.eqb n s) eqn:E; simpl; by rewrite E.
Qed.

Lemma lookup_set_entry_ne s s' x es :
    s ≠ s' → lookup_entry s' (set_entry s x es) = lookup_entry s' es.
Proof.
    intros Hne. induction es as [|[n y] es IH]; simpl.
    - by rewrite (proj2 (String.eqb_neq _ _) Hne).
    - destruct (String.eqb n s) eqn:E; simpl.
      + apply String.eqb_eq in E as ->. by rewrite (proj2 (String.eqb_neq _ _) Hne).
      + by rewrite IH.
Qed.

Lemma set_entry_same s x es : lookup_entry s es = Some x → set_entry s x es = es.
Proof.
    induction es as [|[n y] es IH]; simpl; [done|].
    destruct (String.eqb n s) eqn:E; [by intros [= ->]|].
    intros H. by rewrite IH.
Qed.

Lemma set_entry_twice s x y es : set_entry s x (set_entry s y es) = set_entry s x es.
Proof.
    induction es as [|[n z] es IH]; simpl.
    - by rewrite String.eqb_refl.
    - destruct (String.eqb n s) eqn:E; simpl; rewrite E; [done|by rewrite IH].
Qed.

Lemma set_entry_comm s s' x y es :
    s ≠ s' → is_Some (lookup_entry s es) → is_Some (lookup_entry s' es) →
    set_entry s x (set_entry s' y es) = set_entry s' y (set_entry s x es).
Proof.
    intros Hne. induction es as [|[n z] es IH]; simpl; intros H1 H2.
    - by destruct H1.
    - destruct (String.eqb n s) eqn:E1, (String.eqb n s') eqn:E2; simpl;
        rewrite ?E1, ?E2; try done.
      + apply String.eqb_eq in E1, E2. congruence.
      + by rewrite IH.
Qed.
End entries.

Lemma find_app p q n : find (p ++ q) n = find p n ≫= find q.
Proof.
  revert n. induction p as [|s p IH]; intros n; [done|]. simpl.
destruct n as [c|es]; [done|]. destruct (lookup_entry s es); [apply IH|done].
Qed.

Lemma write_cons s rest c es :
  write (s :: rest) c (Dir es)
  = match rest with
    | [] => match lookup_entry s es with
            | Some (Dir _) => None
            | _ => Some (Dir (set_entry s (File c) es))
            end
    | _ => child ← write rest c (default (Dir []) (lookup_entry s es));
           Some (Dir (set_entry s child es))
    end.
Proof. by destruct rest. Qed.

Lemma write_file p c c0 : write p c (File c0) = None.
Proof. by destruct p as [|? []]. Qed.

(** Writing outside a subtree leaves the subtree as it is. *)
Lemma write_frame q : ∀ p c t t' T,
  find p t = Some T → ¬ p `prefix_of` q →
  write q c t = Some t' → find p t' = Some T.
Proof.
induction q as [|s' q IH]; intros p c t t' T Hfind Hpre Hw; [done|].
destruct p as [|s p]; [destruct Hpre; apply prefix_nil|].
destruct t as [c0|es]; [done|]. simpl in Hfind.
destruct (lookup_entry s es) as [child|] eqn:Hs; [|done].
rewrite write_cons in Hw.
destruct (decide (s = s')) as [<-|Hne].
- rewrite Hs in Hw. destruct q as [|s2 q].
    + destruct child as [c1|sub]; [|done].
      destruct p; [|done]. destruct Hpre. done.
    + simpl default in Hw.
      destruct (write (s2 :: q) c child) as [child'|] eqn:Hc; [|done].
      injection Hw as <-. simpl. rewrite lookup_set_entry_eq.
      eapply IH; [done| |done]. intros Hp. apply Hpre. by apply prefix_cons.
- assert (∃ x, t' = Dir (set_entry s' x es)) as [x ->].
    { destruct q; [destruct (lookup_entry s' es) as [[]|]|
                   destruct (write _ _ _)]; simplify_eq/=; eauto. }
    simpl. rewrite lookup_set_entry_ne by done. by rewrite Hs.
Qed.

Lemma content_nil n : content [] n = match n with File c => Some c | Dir _ => None end.
Proof. done. Qed.

Lemma content_cons s p es :
  content (s :: p) (Dir es) = lookup_entry s es ≫= content p.
Proof. unfold content. simpl. by destruct (lookup_entry s es). Qed.

Lemma content_file p c : content p (File c) = match p with [] => Some c | _ => None end.
Proof. by destruct p. Qed.

(** (a) writing over an existing file only changes its text *)
Lemma write_existing p : ∀ c c0 t,
  content p t = Some c0 → p ≠ [] → write p c t = Some (set p c t).
Proof.
induction p as [|s p IH]; intros c c0 t Hc Hne; [done|].
destruct t as [c1|es]; [done|]. rewrite content_cons in Hc.
rewrite write_cons. simpl.
destruct (lookup_entry s es) as [child|] eqn:Hs; [|done]. simpl in Hc.
destruct p as [|s2 p].
- rewrite content_nil in Hc. by destruct child.
- simpl default. by rewrite (IH c c0 child Hc).
Qed.

(** (b) what was written is there *)
Lemma content_write_eq p : ∀ c t t', write p c t = Some t' → content p t' = Some c.
Proof.
induction p as [|s p IH]; intros c t t' Hw; [done|].
destruct t as [c1|es]; [by rewrite write_file in Hw|]. rewrite write_cons in Hw.
destruct p as [|s2 p].
- destruct (lookup_entry s es) as [[]|]; simplify_eq/=;
      by rewrite content_cons, lookup_set_entry_eq.
- destruct (write (s2 :: p) c _) as [child'|] eqn:Hc; [|done].
    injection Hw as <-. rewrite content_cons, lookup_set_entry_eq. simpl.
    by eapply IH.
Qed.

(** (c) and the other files keep their text *)
Lemma content_write_ne q : ∀ p d c t t',
  write q d t = Some t' → content p t = Some c → p ≠ q → content p t' = Some c.
Proof.
induction q as [|s' q IH]; intros p d c t t' Hw Hc Hne; [done|].
destruct t as [c1|es]; [by rewrite write_file in Hw|].
destruct p as [|s p]; [done|]. rewrite content_cons in Hc.
destruct (lookup_entry s es) as [child|] eqn:Hs; [|done]. simpl in Hc.
rewrite write_cons in Hw.
destruct (decide (s = s')) as [<-|Hss].
- rewrite Hs in Hw. destruct q as [|s2 q].
    + destruct child as [c2|sub]; [|done]. rewrite content_file in Hc.
      destruct p; [done|done].
    + simpl default in Hw.
      destruct (write (s2 :: q) d child) as [child'|] eqn:Hw'; [|done].
      injection Hw as <-. rewrite content_cons, lookup_set_entry_eq. simpl.
      eapply IH; [done|done|congruence].
- assert (∃ x, t' = Dir (set_entry s' x es)) as [x ->].
    { destruct q; [destruct (lookup_entry s' es) as [[]|]|
                   destruct (write _ _ _)]; simplify_eq/=; eauto. }
    rewrite content_cons, lookup_set_entry_ne by done. by rewrite Hs.
Qed.

(** (d) *)
Lemma set_same p : ∀ c t, content p t = Some c → set p c t = t.
Proof.
induction p as [|s p IH]; intros c t Hc.
- destruct t; [|done]. by injection Hc as ->.
- destruct t as [c1|es]; [done|]. rewrite content_cons in Hc. simpl.
    destruct (lookup_entry s es) as [child|] eqn:Hs; [|done]. simpl in Hc.
    rewrite (IH _ _ Hc). by rewrite set_entry_same.
Qed.

(** (e) *)
Lemma content_set_ne q : ∀ p d t, p ≠ q → content p (set q d t) = content p t.
Proof.
induction q as [|s' q IH]; intros p d t Hne.
- destruct t; [|done]. by destruct p.
- destruct t as [c1|es]; [done|]. simpl.
    destruct (lookup_entry s' es) as [child|] eqn:Hs'; [|done].
    destruct p as [|s p]; [done|]. rewrite !content_cons.
    destruct (decide (s = s')) as [->|Hss].
    + rewrite lookup_set_entry_eq, Hs'. simpl. apply IH. congruence.
    + by rewrite lookup_set_entry_ne.
Qed.

(** (f) *)
Lemma set_twice p : ∀ c d t, set p c (set p d t) = set p c t.
Proof.
induction p as [|s p IH]; intros c d t.
- by destruct t.
- destruct t as [c1|es]; [done|]. simpl.
    destruct (lookup_entry s es) as [child|] eqn:Hs; simpl; [|by rewrite Hs].
    by rewrite lookup_set_entry_eq, IH, set_entry_twice.
Qed.

(** (g) *)
Lemma set_comm p : ∀ q c d t, p ≠ q → set p c (set q d t) = set q d (set p c t).
Proof.
induction p as [|s p IH]; intros q c d t Hne.
- destruct q as [|s' q]; [done|]. destruct t as [c1|es]; [done|].
    simpl. by destruct (lookup_entry s' es).
- destruct t as [c1|es]; [by destruct q|].
    destruct q as [|s' q].
    { simpl. by destruct (lookup_entry s es). }
    simpl.
    destruct (lookup_entry s es) as [x|] eqn:Hs, (lookup_entry s' es) as [y|] eqn:Hs';
      simpl; rewrite ?Hs, ?Hs'; try done.
    + destruct (decide (s = s')) as [<-|Hss].
      * rewrite !lookup_set_entry_eq. simplify_eq. rewrite !set_entry_twice.
        rewrite IH by congruence. done.
      * rewrite !lookup_set_entry_ne by done. rewrite Hs, Hs'.
        by rewrite set_entry_comm.
    + destruct (decide (s = s')) as [<-|Hss]; [congruence|].
      rewrite lookup_set_entry_ne by done. by rewrite Hs'.
    + destruct (decide (s = s')) as [<-|Hss]; [congruence|].
      rewrite lookup_set_entry_ne by done. by rewrite Hs.
Qed.

Lemma content_set_eq p : ∀ c c0 t, content p t = Some c0 → content p (set p c t) = Some c.
Proof.
induction p as [|s p IH]; intros c c0 t Hc.
- by destruct t.
- destruct t as [c1|es]; [done|]. rewrite content_cons in Hc. simpl.
    destruct (lookup_entry s es) as [child|] eqn:Hs; [|done]. simpl in Hc.
    rewrite content_cons, lookup_set_entry_eq. simpl. by eapply IH.
Qed.

Lemma content_set_is_Some p q d t :
  is_Some (content p t) → is_Some (content p (set q d t)).
Proof.
intros [c Hc]. destruct (decide (p = q)) as [->|Hne].
- rewrite (content_set_eq _ d c) by done. eauto.
- rewrite content_set_ne by done. eauto.
Qed.

Lemma content_write_is_Some p q d t t' :
  is_Some (content p t) → write q d t = Some t' → is_Some (content p t').
Proof.
intros [c Hc] Hw. destruct (decide (p = q)) as [->|Hne].
- rewrite (content_write_eq _ _ _ _ Hw). eauto.
- rewrite (content_write_ne _ _ _ _ _ _ Hw Hc Hne). eauto.
Qed.

Lemma writes_existing ws : ∀ t,
  Forall (λ w, w.1 ≠ [] ∧ is_Some (content w.1 t)) ws → writes ws t = Some (sets ws t).
Proof.
induction ws as [|[p c] ws IH]; intros t Hall; [done|].
  inversion_clear Hall as [|?? [Hne [c0 Hp]] Hrest]. simpl in *.
rewrite (write_existing _ _ _ _ Hp Hne). simpl. apply IH.
  eapply Forall_impl; [exact Hrest|]. intros [q d] [? Hq].
  split; [done|]. by apply content_set_is_Some.
Qed.

Lemma writes_files ws : ∀ t t',
  writes ws t = Some t' → Forall (λ w, w.1 ≠ [] ∧ is_Some (content w.1 t')) ws.
Proof.
induction ws as [|[p c] ws IH]; intros t t' Hw; [constructor|].
  simpl in Hw. destruct (write p c t) as [t1|] eqn:Hw1; [|done]. simpl in Hw.
  constructor; [|by eapply IH]. simpl. split.
- intros ->. done.
- assert (is_Some (content p t1)) as H1 by (rewrite (content_write_eq _ _ _ _ Hw1); eauto).
    clear Hw1 IH. revert t1 Hw H1.
    induction ws as [|[q d] ws IH]; intros t1 Hw H1; simpl in Hw.
    + by injection Hw as <-.
    + destruct (write q d t1) as [t2|] eqn:Hw2; [|done]. simpl in Hw.
      eapply IH; [done|]. by eapply content_write_is_Some.
Qed.

Lemma writes_content_ne ws : ∀ p c t t',
  p ∉ ws.*1 → content p t = Some c → writes ws t = Some t' → content p t' = Some c.
Proof.
induction ws as [|[q d] ws IH]; intros p c t t' Hp Hc Hw; simpl in *.
- by injection Hw as <-.
- destruct (write q d t) as [t1|] eqn:Hw1; [|done]. simpl in Hw.
    apply not_elem_of_cons in Hp as [Hpq Hp].
    eapply IH; [done| |done]. by eapply content_write_ne.
Qed.

Lemma sets_absorb ws : ∀ p c t, p ∈ ws.*1 → sets ws (set p c t) = sets ws t.
Proof.
induction ws as [|[q d] ws IH]; intros p c t Hp; simpl in *.
- by apply elem_of_nil in Hp.
- destruct (decide (q = p)) as [->|Hne].
    + by rewrite set_twice.
    + apply elem_of_cons in Hp as [->|Hp]; [done|].
      rewrite set_comm by done. by apply IH.
Qed.

Lemma sets_comm ws : ∀ p c t, p ∉ ws.*1 → sets ws (set p c t) = set p c (sets ws t).
Proof.
induction ws as [|[q d] ws IH]; intros p c t Hp; simpl in *; [done|].
  apply not_elem_of_cons in Hp as [Hpq Hp].
rewrite set_comm by done. by apply IH.
Qed.

Lemma sets_after_writes ws : ∀ t t', writes ws t = Some t' → sets ws t' = t'.
Proof.
induction ws as [|[p c] ws IH]; intros t t' Hw; [done|]. simpl in *.
destruct (write p c t) as [t1|] eqn:Hw1; [|done]. simpl in Hw.
destruct (decide (p ∈ ws.*1)) as [Hin|Hout].
- rewrite sets_absorb by done. by eapply IH.
- rewrite sets_comm by done. rewrite (IH _ _ Hw).
    apply set_same. eapply writes_content_ne; [done| |done].
    by eapply content_write_eq.
Qed.

(** Writing a batch again over its own result changes nothing. *)
Lemma writes_replay ws t t' : writes ws t = Some t' → writes ws t' = Some t'.
Proof.
intros Hw. rewrite (writes_existing ws t') by (by eapply writes_files).
  by rewrite (sets_after_writes _ _ _ Hw).
Qed.

End FsFacts.
(* ================================================================== *)
(** * Facts: effects and prompts *)
(* ================================================================== *)

Lemma bind_returned {A B} (m : M A) (k : A → M B) w a w' :
  m w = (Returned a, w') → bind m k w = k a w'.
Proof. unfold bind. by intros ->. Qed.

Lemma bind_exited {A B} (m : M A) (k : A → M B) w c w' :
  m w = (Exited c, w') → bind m k w = (Exited c, w').
Proof. unfold bind. by intros ->. Qed.

Lemma asked_cons_skip q qs : Prompts.type q = None → asked (q :: qs) = asked qs.
Proof. intros H. unfold asked, askable. simpl. by rewrite H. Qed.

Lemma asked_cons_keep q qs t : Prompts.type q = Some t → asked (q :: qs) = q :: asked qs.
Proof. intros H. unfold asked, askable. simpl. by rewrite H. Qed.

Lemma with_log_nil w : with_log w [] (replies w) = w.
Proof. destruct w. unfold with_log. simpl. by rewrite app_nil_r. Qed.

(** When every shown question is answered, [prompts] returns the collected
    answers. *)
Lemma prompts_all_submitted qs : ∀ onCancel vs rest answers w,
  replies w = map Prompts.Submit vs ++ rest →
  length vs = length (asked qs) →
  prompts qs onCancel answers w
  = (Returned (collect qs vs answers), with_log w (map Prompted (asked qs)) rest).
Proof.
  induction qs as [|q qs IH]; intros onCancel vs rest answers w Hr Hl.
  - destruct vs; [|done]. simpl in *. subst rest. by rewrite with_log_nil.
  - cbn [prompts collect]. destruct (Prompts.type q) as [t|] eqn:Ht.
    + rewrite (asked_cons_keep _ _ _ Ht) in *.
      destruct vs as [|v vs]; [by simpl in Hl|]. simpl in Hr, Hl.
      unfold bind at 1, ask. rewrite Hr. simpl.
      rewrite (IH onCancel vs rest); [|done|simpl in *; lia].
      unfold with_log. simpl. by rewrite <-app_assoc.
    + rewrite (asked_cons_skip _ _ Ht) in *. by apply IH.
Qed.

(** When a prompt is cancelled and [onCancel] exits, [prompts] exits; only
    prompts were shown. *)
Lemma prompts_cancel_exits qs : ∀ code answers w,
  cancels (length (asked qs)) (replies w) = true →
  ∃ evs rs, prompts qs (exit code) answers w = (Exited code, with_log w evs rs)
            ∧ existsb is_output evs = false.
Proof.
  induction qs as [|q qs IH]; intros code answers w Hc; [done|].
  cbn [prompts]. destruct (Prompts.type q) as [t|] eqn:Ht.
  - rewrite (asked_cons_keep _ _ _ Ht) in Hc. simpl in Hc.
    unfold bind at 1, ask.
    destruct (replies w) as [|[v|] rs] eqn:Hr; simpl.
    + by exists [Prompted q], [].
    + destruct (IH code (<[Prompts.name q:=v]> answers)
        {| replies := rs; disk := disk w; log := log w ++ [Prompted q] |} Hc)
        as (evs & rs' & -> & Hno).
      exists (Prompted q :: evs), rs'. unfold with_log. simpl.
      by rewrite <-app_assoc.
    + by exists [Prompted q], rs.
  - rewrite (asked_cons_skip _ _ Ht) in Hc. by apply IH.
Qed.

Lemma cancels_false n : ∀ rs,
  cancels n rs = false →
  ∃ vs rest, rs = map Prompts.Submit vs ++ rest ∧ length vs = n.
Proof.
  induction n as [|n IH]; intros rs H; [by exists [], rs|].
  destruct rs as [|[v|] rs]; [done| |done]. simpl in H.
  destruct (IH rs H) as (vs & rest & -> & <-). by exists (v :: vs), rest.
Qed.

Lemma exits_zero_bind {A B} (m : M A) (k : A → M B) :
  exits_zero m → (∀ a, exits_zero (k a)) → exits_zero (bind m k).
Proof.
  intros Hm Hk w c w'. unfold bind.
  destruct (m w) as [[a|c1|e] w1] eqn:E; intros H.
  - by eapply Hk.
  - injection H as <- <-. by eapply Hm.
  - done.
Qed.

Lemma exits_zero_ret {A} (a : A) : exits_zero (ret a).
Proof. by intros w c w'. Qed.

Lemma exits_zero_throw {A} e : exits_zero (@throw A e).
Proof. by intros w c w'. Qed.

Lemma exits_zero_exit {A} : exits_zero (@exit A 0).
Proof. intros w c w'. by intros [= <- _]. Qed.

Lemma exits_zero_emit e : exits_zero (emit e).
Proof. by intros w c w'. Qed.

Lemma exits_zero_try {A} e (r : option A) : exits_zero (try e r).
Proof. destruct r; [apply exits_zero_ret|apply exits_zero_throw]. Qed.

Lemma exits_zero_get_disk : exits_zero get_disk.
Proof. by intros w c w'. Qed.

Lemma exits_zero_put_disk d : exits_zero (put_disk d).
Proof. by intros w c w'. Qed.

Lemma exits_zero_ask q : exits_zero (ask q).
Proof. intros w c w'. unfold ask. by destruct (replies w). Qed.

Create HintDb exits discriminated.
#[local] Hint Resolve exits_zero_ret exits_zero_throw exits_zero_exit exits_zero_emit
  exits_zero_try exits_zero_get_disk exits_zero_put_disk exits_zero_ask : exits.

Ltac exits :=
  repeat first
    [ progress auto with exits
    | apply exits_zero_bind; [|intros ?]
    | match goal with
      | |- exits_zero (if ?b then _ else _) => destruct b
      | |- exits_zero (match ?x with _ => _ end) => destruct x
      end ].

Lemma exits_zero_on_disk e f : exits_zero (on_disk e f).
Proof. unfold on_disk. exits. Qed.
#[local] Hint Resolve exits_zero_on_disk : exits.

Lemma exits_zero_for_of {A} (xs : list A) body :
  (∀ x, exits_zero (body x)) → exits_zero (for_of xs body).
Proof. intros H. induction xs; simpl; exits. Qed.

Lemma exits_zero_prompts qs : ∀ onCancel answers,
  exits_zero onCancel → exits_zero (prompts qs onCancel answers).
Proof.
  induction qs as [|q qs IH]; intros onCancel answers H; simpl; exits.
Qed.

#[local] Hint Resolve exits_zero_prompts exits_zero_for_of : exits.

Lemma exits_zero_readdir p : exits_zero (readdir p).
Proof. unfold readdir. exits. Qed.

Lemma exits_zero_readFile p : exits_zero (readFile p).
Proof. unfold readFile. exits. Qed.

Lemma exits_zero_ensureDir p : exits_zero (ensureDir p).
Proof. unfold ensureDir. exits. Qed.

Lemma exits_zero_outputFile p c : exits_zero (outputFile p c).
Proof. unfold outputFile. exits. Qed.

Lemma exits_zero_remove p : exits_zero (remove p).
Proof. unfold remove. exits. Qed.
#[local] Hint Resolve exits_zero_readdir exits_zero_readFile exits_zero_ensureDir
  exits_zero_outputFile exits_zero_remove : exits.

Lemma exits_zero_createModuleFromTemplate tp tg data :
  exits_zero (createModuleFromTemplate tp tg data).
Proof.
  unfold createModuleFromTemplate, listFiles. exits.
  all: apply exits_zero_for_of; intros file; unfold loop_body; exits.
Qed.

Lemma exits_zero_askForPackageSlugAsync E t : exits_zero (askForPackageSlugAsync E t).
Proof. unfold askForPackageSlugAsync. exits. Qed.

Lemma exits_zero_askForSubstitutionDataAsync E slug :
  exits_zero (askForSubstitutionDataAsync E slug).
Proof. unfold askForSubstitutionDataAsync. exits. Qed.

Lemma exits_zero_confirmTargetDirAsync dir : exits_zero (confirmTargetDirAsync dir).
Proof. unfold confirmTargetDirAsync. exits. Qed.

Lemma exits_zero_packagePath E options targetDir :
  exits_zero (packagePath E options targetDir).
Proof.
  unfold packagePath, downloadPackageAsync, newStep, getNpmTarballUrl,
    downloadTarball, succeed.
  exits.
Qed.

Lemma exits_zero_main E t options : exits_zero (main E t options).
Proof.
  unfold main, newStep, succeed, path_join_value.
  apply exits_zero_bind; [apply exits_zero_askForPackageSlugAsync|intros slug].
  apply exits_zero_bind; [exits|intros targetDir].
  apply exits_zero_bind; [exits|intros _].
  apply exits_zero_bind; [apply exits_zero_confirmTargetDirAsync|intros _].
  apply exits_zero_bind; [apply exits_zero_askForSubstitutionDataAsync|intros data].
  apply exits_zero_bind; [exits|intros _].
  apply exits_zero_bind; [exits|intros pm].
  apply exits_zero_bind; [apply exits_zero_packagePath|intros pp].
  apply exits_zero_bind.
  { apply exits_zero_bind; [exits|intros _].
    apply exits_zero_bind; [apply exits_zero_createModuleFromTemplate|intros _]. exits. }
  intros _. exits.
Qed.

Lemma silent_bind {A B} (m : M A) (k : A → M B) :
  silent m → (∀ a, silent (k a)) → silent (bind m k).
Proof.
  intros Hm Hk w o w'. unfold bind.
  destruct (m w) as [[a|c|e] w1] eqn:E; intros H.
  - destruct (Hm _ _ _ E) as (evs1 & Hl1 & Hn1).
    destruct (Hk a _ _ _ H) as (evs2 & Hl2 & Hn2).
    exists (evs1 ++ evs2). rewrite Hl2, Hl1, <-app_assoc. split; [done|].
    by rewrite existsb_app, Hn1, Hn2.
  - injection H as <- <-. by eapply Hm.
  - injection H as <- <-. by eapply Hm.
Qed.

Lemma silent_pure {A} (m : M A) : (∀ w, (m w).2 = w) → silent m.
Proof.
  intros H w o w' E. exists []. rewrite app_nil_r. split; [|done].
  specialize (H w). rewrite E in H. simpl in H. by subst.
Qed.

Lemma silent_ret {A} (a : A) : silent (ret a).
Proof. by apply silent_pure. Qed.

Lemma silent_throw {A} e : silent (@throw A e).
Proof. by apply silent_pure. Qed.

Lemma silent_exit {A} c : silent (@exit A c).
Proof. by apply silent_pure. Qed.

Lemma silent_try {A} e (r : option A) : silent (try e r).
Proof. destruct r; [apply silent_ret|apply silent_throw]. Qed.

Lemma silent_get_disk : silent get_disk.
Proof. by apply silent_pure. Qed.

Lemma silent_put_disk d : silent (put_disk d).
Proof. intros w o w' [= <- <-]. exists []. simpl. by rewrite app_nil_r. Qed.

Lemma silent_emit e : is_output e = false → silent (emit e).
Proof. intros He w o w' [= <- <-]. exists [e]. simpl. by rewrite He. Qed.

Lemma silent_ask q : silent (ask q).
Proof.
  intros w o w'. unfold ask. destruct (replies w); intros [= <- <-]; by exists [Prompted q].
Qed.

Create HintDb silent discriminated.
#[local] Hint Resolve silent_ret silent_throw silent_exit silent_try silent_get_disk
  silent_put_disk silent_ask : silent.

Ltac silent :=
  repeat first
    [ progress auto with silent
    | apply silent_emit; reflexivity
    | apply silent_bind; [|intros ?]
    | match goal with
      | |- silent (if ?b then _ else _) => destruct b
      | |- silent (match ?x with _ => _ end) => destruct x
      end ].

Lemma silent_prompts qs : ∀ onCancel answers,
  silent onCancel → silent (prompts qs onCancel answers).
Proof. induction qs as [|q qs IH]; intros onCancel answers H; simpl; silent. Qed.
#[local] Hint Resolve silent_prompts : silent.

Lemma silent_askForPackageSlugAsync E t : silent (askForPackageSlugAsync E t).
Proof. unfold askForPackageSlugAsync. silent. Qed.

Lemma silent_ensureDir p : silent (ensureDir p).
Proof. unfold ensureDir, on_disk. silent. Qed.


Lemma askForSubstitutionDataAsync_answered E slug vs rest w :
  replies w = map Prompts.Submit vs ++ rest →
  length vs = length (asked (getSubstitutionDataPrompts E slug)) →
  let answers := collect (getSubstitutionDataPrompts E slug) vs ∅ in
  askForSubstitutionDataAsync E slug w
  = (Returned
       {| project := {| slug := slug;
                        name := prop answers "name";
                        version := "0.1.0";
                        description := prop answers "description";
                        package := prop answers "package" |};
          author := JS.to_string (prop answers "authorName") +:+ " <"
                    +:+ JS.to_string (prop answers "authorEmail") +:+ "> ("
                    +:+ JS.to_string (prop answers "authorUrl") +:+ ")";
          license := "MIT";
          repo := prop answers "repo" |},
     with_log w (map Prompted (asked (getSubstitutionDataPrompts E slug))) rest).
Proof.
  intros Hr Hl answers. unfold askForSubstitutionDataAsync.
  by rewrite (bind_returned _ _ _ _ _ (prompts_all_submitted _ _ _ _ _ _ Hr Hl)).
Qed.

Lemma confirmTargetDirAsync_empty targetDir w :
  readdir targetDir w = (Returned [], w) →
  confirmTargetDirAsync targetDir w = (Returned tt, w).
Proof.
  intros H. unfold confirmTargetDirAsync. by rewrite (bind_returned _ _ _ _ _ H).
Qed.

Lemma confirmTargetDirAsync_declined targetDir w files :
  readdir targetDir w = (Returned files, w) → files ≠ [] →
  declines (replies w) = true →
  confirmTargetDirAsync targetDir w
  = (Exited 0, with_log w [Prompted (shouldContinue_question targetDir)]
                         (tail (replies w))).
Proof.
  intros H Hne Hd. unfold confirmTargetDirAsync.
  rewrite (bind_returned _ _ _ _ _ H).
  destruct files as [|f files]; [done|]. simpl.
  unfold bind, ask, with_log. simpl.
  destruct (replies w) as [|[v|] rs]; simpl in *; [done| |done].
  unfold prop. rewrite lookup_insert_eq. simpl. by rewrite Hd.
Qed.

(* ================================================================== *)
(** * Facts: the discovered files *)
(* ================================================================== *)

Lemma node_ind' (P : Fs.node → Prop) :
  (∀ c, P (Fs.File c)) →
  (∀ es, Forall (λ e, P e.2) es → P (Fs.Dir es)) →
  ∀ n, P n.
Proof.
  intros HF HD. fix IH 1. intros [c|es]; [apply HF|apply HD].
  induction es as [|[name x] es IHes]; constructor; [apply IH|apply IHes].
Qed.

Lemma clean_plain segs :
  Forall clean_segment segs → Forall (λ s, Path.plain_segment s = true) segs.
Proof. intros H. eapply Forall_impl; [exact H|]. by intros ? []. Qed.

Lemma getFilesAsync_cons dir file stat rest :
  getFilesAsync dir (Fs.Dir ((file, stat) :: rest))
  = if JS.includes IGNORES_PATHS (relativePath dir file) || JS.includes IGNORES_PATHS file
    then getFilesAsync dir (Fs.Dir rest)
    else (if Fs.isDirectory stat
          then getFilesAsync (Some (relativePath dir file)) stat
          else [relativePath dir file]) ++ getFilesAsync dir (Fs.Dir rest).
Proof. reflexivity. Qed.

Lemma well_named_cons name x rest :
  Fs.well_named (Fs.Dir ((name, x) :: rest))
  = Path.entry_name name && Fs.well_named x && Fs.well_named (Fs.Dir rest).
Proof. reflexivity. Qed.

Lemma relativePath_clean dir file :
  clean_dir dir → Path.entry_name file = true → JS.includes IGNORES_PATHS file = false →
  Forall clean_segment (Path.split Path.sep_char (relativePath dir file)).
Proof.
  intros Hdir Hname Hfile. destruct (entry_name_spec _ Hname) as [Hplain Hnosep].
  unfold relativePath. destruct dir as [d|]; simpl in Hdir.
  - destruct (String.eqb_spec d EmptyString) as [->|Hd].
    + by inversion Hdir as [|?? [? ?]].
    + rewrite join_dir_file by (done || by apply clean_plain).
      change (d +:+ Path.sep +:+ file) with (d +:+ String Path.sep_char file).
      rewrite split_app, (split_no_sep _ _ Hnosep).
      apply Forall_app. split; [done|]. by repeat constructor.
  - rewrite (split_no_sep _ _ Hnosep). by repeat constructor.
Qed.

Lemma getFilesAsync_clean t : ∀ dir,
  Fs.well_named t = true → clean_dir dir →
  Forall (λ p, Forall clean_segment (Path.split Path.sep_char p)) (getFilesAsync dir t).
Proof.
  induction t as [c|es IH] using node_ind'; intros dir Hwf Hdir; [constructor|].
  induction es as [|[file stat] rest IHrest]; [constructor|].
  rewrite well_named_cons in Hwf. rewrite getFilesAsync_cons.
  apply andb_true_iff in Hwf as [[Hname Hstat]%andb_true_iff Hrest].
  inversion_clear IH as [|?? IHstat IHes]. specialize (IHrest IHes Hrest).
  destruct (JS.includes IGNORES_PATHS (relativePath dir file)
            || JS.includes IGNORES_PATHS file) eqn:Hign; [exact IHrest|].
  apply orb_false_iff in Hign as [_ Hfile].
  pose proof (relativePath_clean dir file Hdir Hname Hfile) as Hrel.
  apply Forall_app. split; [|exact IHrest].
  destruct stat as [c|sub]; simpl Fs.isDirectory; cbv iota.
  - by repeat constructor.
  - by apply (IHstat (Some (relativePath dir file))).
Qed.

(* ================================================================== *)
(** * Facts: the rendering loop *)
(* ================================================================== *)

Lemma prefix_within root dest : root `prefix_of` dest → Fs.within root dest = true.
Proof.
  intros [k ->]. induction root as [|r root IH]; [done|].
  simpl. by rewrite String.eqb_refl, IH.
Qed.

Lemma outputFile_run to c w :
  outputFile to c w
  = match Fs.write (Fs.locate to) c (disk w) with
    | Some d' => (Returned tt, {| replies := replies w; disk := d';
                                  log := log w ++ [OutputFile to c] |})
    | None => (Thrown "EISDIR/ENOTDIR",
               {| replies := replies w; disk := disk w;
                  log := log w ++ [OutputFile to c] |})
    end.
Proof.
  unfold outputFile, on_disk, bind, emit, get_disk, try, put_disk. simpl.
  by destruct (Fs.write _ _ _).
Qed.

Lemma readFile_run path w :
  readFile path w
  = match Fs.content (Fs.locate path) (disk w) with
    | Some c => (Returned c, w)
    | None => (Thrown (match Fs.find (Fs.locate path) (disk w) with
                       | Some _ => "EISDIR" | None => "ENOENT" end), w)
    end.
Proof.
  unfold readFile, bind, get_disk, Fs.content. simpl.
  by destruct (Fs.find _ _) as [[]|].
Qed.

Section loop.
Context (tp tg : string) (data : SubstitutionData) (T : Fs.node).

Lemma read_template file w :
  Fs.find (Fs.locate tp) (disk w) = Some T → clean_file file →
  Fs.content (Fs.locate (Path.join [tp; file])) (disk w)
  = Fs.content (Path.split Path.sep_char file) T.
Proof.
  intros HT Hf. rewrite (locate_join _ _ Hf). unfold Fs.content.
  by rewrite FsFacts.find_app, HT.
Qed.

Lemma loop_body_run file w :
  Fs.find (Fs.locate tp) (disk w) = Some T → clean_file file →
  match rendered_file T tg data file with
  | Some (to, c) => loop_body tp tg data file w = outputFile to c w
  | None => ∃ e, loop_body tp tg data file w = (Thrown e, w)
  end.
Proof.
  intros HT Hf. unfold rendered_file, loop_body.
  destruct (renderedRelativePath file data) as [r|]; simpl;
    [|eexists; reflexivity].
  cbv beta iota delta [bind try ret throw].
  rewrite readFile_run, (read_template _ _ HT Hf).
  destruct (Fs.content _ T) as [template|]; simpl; [|eexists; reflexivity].
  destruct (renderedContent template data) as [c|]; simpl;
    [|eexists; reflexivity].
  done.
Qed.

Lemma outside_rendered file to c :
  outside tp tg data file = true →
  rendered_file T tg data file = Some (to, c) →
  ¬ Fs.locate tp `prefix_of` Fs.locate to.
Proof.
  unfold outside, rendered_file. intros Ho Hrf Hpre%prefix_within.
  destruct (renderedRelativePath file data) as [r|]; [|done]. simpl in Hrf.
  destruct (Fs.content _ T); [|done]. simpl in Hrf.
  destruct (renderedContent _ data); [|done]. simpl in Hrf.
  injection Hrf as <- <-. by rewrite Hpre in Ho.
Qed.

Lemma for_of_returned files : ∀ w w',
  Fs.find (Fs.locate tp) (disk w) = Some T →
  Forall clean_file files →
  forallb (outside tp tg data) files = true →
  for_of files (loop_body tp tg data) w = (Returned tt, w') →
  ∃ outs,
    rendered_files T tg data files = Some outs
    ∧ Fs.writes (located outs) (disk w) = Some (disk w')
    ∧ log w' = log w ++ output_events outs
    ∧ replies w' = replies w
    ∧ Fs.find (Fs.locate tp) (disk w') = Some T.
Proof.
  induction files as [|file files IH]; intros w w' HT Hclean Hout Hrun.
  - injection Hrun as <-. exists []. by rewrite app_nil_r.
  - inversion_clear Hclean as [|?? Hf Hfs].
    apply andb_true_iff in Hout as [Ho Hos].
    cbn [for_of] in Hrun. unfold bind at 1 in Hrun.
    pose proof (loop_body_run file w HT Hf) as Hbody.
    destruct (rendered_file T tg data file) as [[to c]|] eqn:Hrf; last first.
    { destruct Hbody as [e He]. by rewrite He in Hrun. }
    rewrite Hbody, outputFile_run in Hrun.
    destruct (Fs.write (Fs.locate to) c (disk w)) as [d1|] eqn:Hw; [|done].
    assert (Fs.find (Fs.locate tp) d1 = Some T) as HT1.
    { eapply FsFacts.write_frame; [exact HT| |exact Hw]. by eapply outside_rendered. }
    destruct (IH _ _ (HT1 : Fs.find _ (disk {| replies := replies w; disk := d1;
               log := log w ++ [OutputFile to c] |}) = _) Hfs Hos Hrun)
      as (outs & Hrfs & Hws & Hlog & Hrep & HT').
    exists ((to, c) :: outs). cbn [rendered_files]. rewrite Hrf, Hrfs.
    simpl in *. rewrite Hw. simpl.
    split_and!; try done. by rewrite Hlog, <-app_assoc.
Qed.

Lemma for_of_replay files : ∀ w outs d',
  Fs.find (Fs.locate tp) (disk w) = Some T →
  Forall clean_file files →
  forallb (outside tp tg data) files = true →
  rendered_files T tg data files = Some outs →
  Fs.writes (located outs) (disk w) = Some d' →
  for_of files (loop_body tp tg data) w
  = (Returned tt, {| replies := replies w; disk := d';
                     log := log w ++ output_events outs |}).
Proof.
  induction files as [|file files IH]; intros w outs d' HT Hclean Hout Hrf Hws.
  - injection Hrf as <-. injection Hws as <-. simpl. rewrite app_nil_r.
    by destruct w.
  - inversion_clear Hclean as [|?? Hf Hfs].
    apply andb_true_iff in Hout as [Ho Hos].
    pose proof (loop_body_run file w HT Hf) as Hbody.
    cbn [rendered_files] in Hrf.
    destruct (rendered_file T tg data file) as [[to c]|] eqn:Hrf1; [|done].
    destruct (rendered_files T tg data files) as [outs'|] eqn:Hrfs; [|done].
    injection Hrf as <-. simpl in Hws.
    destruct (Fs.write (Fs.locate to) c (disk w)) as [d1|] eqn:Hw; [|done].
    simpl in Hws.
    assert (Fs.find (Fs.locate tp) d1 = Some T) as HT1.
    { eapply FsFacts.write_frame; [exact HT| |exact Hw]. by eapply outside_rendered. }
    cbn [for_of]. unfold bind at 1. rewrite Hbody, outputFile_run, Hw.
    rewrite (IH _ outs' d'); [|done..]. simpl. by rewrite <-app_assoc.
Qed.
End loop.

(* ================================================================== *)
(** * Facts: the log of a run *)
(* ================================================================== *)

Lemma ensureDir_run path w :
  ensureDir path w
  = match Fs.mkdirp (Fs.locate path) (disk w) with
    | Some d => (Returned tt, {| replies := replies w; disk := d;
                                 log := log w ++ [EnsureDir path] |})
    | None => (Thrown "EEXIST", with_log w [EnsureDir path] (replies w))
    end.
Proof.
  unfold ensureDir, on_disk, bind, emit, get_disk, put_disk, try. simpl.
  by destruct (Fs.mkdirp _ _).
Qed.

Lemma readdir_run path w :
  readdir path w
  = (match Fs.find (Fs.locate path) (disk w) with
     | Some (Fs.Dir es) => Returned (map fst es)
     | Some (Fs.File _) => Thrown "ENOTDIR"
     | None => Thrown "ENOENT"
     end, w).
Proof.
  unfold readdir, bind, get_disk.
  by destruct (Fs.find _ _) as [[]|].
Qed.

Lemma main_unfold E target options :
  main E target options
  = (slug <- askForPackageSlugAsync E target ;;
     targetDir <- path_join_value (CWD E) (JS.or (of_option target) slug) ;;
     ensureDir targetDir ;;;
     main_steps E options targetDir slug).
Proof. reflexivity. Qed.

Lemma bind_returned_inv {A B} (m : M A) (k : A → M B) w b w' :
  bind m k w = (Returned b, w') →
  ∃ a w1, m w = (Returned a, w1) ∧ k a w1 = (Returned b, w').
Proof. unfold bind. destruct (m w) as [[a|c|e] w1]; [eauto|done..]. Qed.

Section only.
Context (P : event → Prop).

Lemma only_bind_returns {A B} (Q : A → Prop) (m : M A) (k : A → M B) :
  only P m → returns Q m → (∀ a, Q a → only P (k a)) → only P (bind m k).
Proof.
  intros Hm HQ Hk w o w'. unfold bind.
  destruct (m w) as [[a|c|e] w1] eqn:E; intros H.
  - destruct (Hm _ _ _ E) as (evs1 & Hl1 & Hn1).
    destruct (Hk a (HQ _ _ _ E) _ _ _ H) as (evs2 & Hl2 & Hn2).
    exists (evs1 ++ evs2). rewrite Hl2, Hl1, <-app_assoc. split; [done|].
    by apply Forall_app.
  - injection H as <- <-. by eapply Hm.
  - injection H as <- <-. by eapply Hm.
Qed.

Lemma only_bind {A B} (m : M A) (k : A → M B) :
  only P m → (∀ a, only P (k a)) → only P (bind m k).
Proof.
  intros Hm Hk. apply only_bind_returns with (Q := λ _, True); [done|done|auto].
Qed.

Lemma only_pure {A} (m : M A) : (∀ w, log (m w).2 = log w) → only P m.
Proof.
  intros H w o w' E. exists []. rewrite app_nil_r. split; [|done].
  specialize (H w). by rewrite E in H.
Qed.

Lemma only_ret {A} (a : A) : only P (ret a).
Proof. by apply only_pure. Qed.

Lemma only_throw {A} e : only P (@throw A e).
Proof. by apply only_pure. Qed.

Lemma only_exit {A} c : only P (@exit A c).
Proof. by apply only_pure. Qed.

Lemma only_try {A} e (r : option A) : only P (try e r).
Proof. destruct r; [apply only_ret|apply only_throw]. Qed.

Lemma only_get_disk : only P get_disk.
Proof. by apply only_pure. Qed.

Lemma only_put_disk d : only P (put_disk d).
Proof. by apply only_pure. Qed.

Lemma only_emit e : P e → only P (emit e).
Proof. intros He w o w' [= <- <-]. exists [e]. split; [done|]. by constructor. Qed.

Lemma only_on_disk e f : only P (on_disk e f).
Proof.
  unfold on_disk. apply only_bind; [apply only_get_disk|intros d].
  apply only_bind; [apply only_try|intros d']. apply only_put_disk.
Qed.

Lemma only_remove p : P (Remove p) → only P (remove p).
Proof.
  intros Hp. unfold remove. apply only_bind; [by apply only_emit|intros _].
  apply only_bind; [apply only_get_disk|intros d]. apply only_put_disk.
Qed.

Lemma only_for_of {A} (xs : list A) body :
  (∀ x, only P (body x)) → only P (for_of xs body).
Proof.
  intros H. induction xs as [|x xs IH]; simpl; [apply only_ret|].
  by apply only_bind.
Qed.

Lemma only_readdir p : only P (readdir p).
Proof. apply only_pure. intros w. by rewrite readdir_run. Qed.

Lemma only_readFile p : only P (readFile p).
Proof.
  apply only_pure. intros w. rewrite readFile_run. by destruct (Fs.content _ _).
Qed.

Hypothesis prompted : ∀ q, P (Prompted q).

Lemma only_ask q : only P (ask q).
Proof.
  intros w o w'. unfold ask.
  destruct (replies w); intros [= <- <-]; exists [Prompted q]; split; auto.
Qed.

Lemma only_prompts qs : ∀ onCancel answers,
  only P onCancel → only P (prompts qs onCancel answers).
Proof.
  induction qs as [|q qs IH]; intros onCancel answers H; simpl; [apply only_ret|].
  destruct (Prompts.type q); [|by apply IH].
  apply only_bind; [apply only_ask|intros [v|]]; [by apply IH|].
  apply only_bind; [done|intros keep].
  destruct (JS.truthy keep); [by apply IH|apply only_ret].
Qed.

Lemma only_askForPackageSlugAsync E t : only P (askForPackageSlugAsync E t).
Proof.
  unfold askForPackageSlugAsync.
  apply only_bind; [apply only_prompts, only_exit|intros ?; apply only_ret].
Qed.

Lemma only_askForSubstitutionDataAsync E slug :
  only P (askForSubstitutionDataAsync E slug).
Proof.
  unfold askForSubstitutionDataAsync.
  apply only_bind; [apply only_prompts, only_exit|intros ?; apply only_ret].
Qed.

Lemma only_confirmTargetDirAsync dir : only P (confirmTargetDirAsync dir).
Proof.
  unfold confirmTargetDirAsync. apply only_bind; [apply only_readdir|intros files].
  destruct (_ =? _)%nat; [apply only_ret|].
  apply only_bind; [apply only_prompts, only_ret|intros answers].
  destruct (negb _); [apply only_exit|apply only_ret].
Qed.

Lemma only_createModuleFromTemplate tp tg data :
  (∀ r c, P (OutputFile (Path.join [tg; r]) c)) →
  only P (createModuleFromTemplate tp tg data).
Proof.
  intros output. unfold createModuleFromTemplate. apply only_bind.
  - apply only_pure. intros w. unfold listFiles, bind, get_disk.
    by destruct (Fs.find _ _) as [[]|].
  - intros files. apply only_for_of. intros file. unfold loop_body.
    apply only_bind; [apply only_try|intros r].
    apply only_bind; [apply only_readFile|intros template].
    apply only_bind; [apply only_try|intros c].
    unfold outputFile. apply only_bind; [apply only_emit, output|intros _].
    apply only_on_disk.
Qed.

End only.

Lemma only_weaken {A} (P Q : event → Prop) (m : M A) :
  (∀ e, P e → Q e) → only P m → only Q m.
Proof.
  intros HPQ Hm w o w' H. destruct (Hm _ _ _ H) as (evs & Hl & Hevs).
  exists evs. split; [done|]. by eapply Forall_impl.
Qed.

(** A downloaded template is rooted at the [package] directory of the
    target directory. *)
Lemma returns_downloadPackageAsync E targetDir :
  returns (λ p, p = Path.join [targetDir; "package"]) (downloadPackageAsync E targetDir).
Proof.
  intros w a w'.
  unfold downloadPackageAsync, newStep, getNpmTarballUrl, downloadTarball, succeed,
    on_disk, bind, emit, try, get_disk, put_disk, ret, throw. simpl.
  destruct (npm_view_stdout E _); [|done]. simpl.
  destruct (tarball E _); [|done]. simpl.
  destruct (Fs.extract _ _ _); [|done]. by intros [= <- _].
Qed.

Lemma returns_packagePath E options targetDir :
  returns (λ p, JS.truthy (of_option (CommandOptions.source options)) = false →
                p = Path.join [targetDir; "package"])
          (packagePath E options targetDir).
Proof.
  intros w a w'. unfold packagePath.
  destruct (JS.truthy _); [done|]. intros H _.
  by apply returns_downloadPackageAsync in H.
Qed.

Lemma only_packagePath E options options' targetDir :
  only (aimed_at options targetDir) (packagePath E options' targetDir).
Proof.
  unfold packagePath. destruct (JS.truthy _); [apply only_ret|].
  unfold downloadPackageAsync, newStep, getNpmTarballUrl, downloadTarball, succeed.
  repeat first
    [ apply only_ret | apply only_try | apply only_on_disk
    | apply only_emit; done
    | apply only_bind; [|intros ?] ].
Qed.

Lemma extends_packagePath E options targetDir :
  only (λ _, True) (packagePath E options targetDir).
Proof. by eapply only_weaken; [|apply (only_packagePath E options)]. Qed.

(** Steps that only add to the log. *)
Ltac log_only :=
  unfold newStep, succeed;
  repeat first
    [ apply only_ret | apply only_try | apply only_on_disk | apply only_get_disk
    | apply only_put_disk
    | apply only_emit; exact I
    | apply only_remove; exact I
    | apply only_confirmTargetDirAsync; intros; exact I
    | apply only_askForSubstitutionDataAsync; intros; exact I
    | apply only_createModuleFromTemplate; intros; exact I
    | apply extends_packagePath
    | apply only_bind; [|intros ?]
    | match goal with
      | |- only _ (if ?b then _ else _) => destruct b
      end ].


(** What follows an event in a sequence adds to the log after it. *)
Lemma log_after_emit {B} e (k : unit → M B) w :
  (∀ u, only (λ _, True) (k u)) →
  ∃ evs, log (bind (emit e) k w).2 = log w ++ e :: evs.
Proof.
  intros Hk. unfold bind, emit.
  match goal with
  | |- context [k tt ?w1] =>
      destruct (Hk tt w1 _ _ (surjective_pairing _)) as (evs & Hl & _)
  end.
  exists evs. rewrite Hl. simpl. by rewrite <-app_assoc.
Qed.
(* ================================================================== *)
(** * The claims *)
(* ================================================================== *)

(** ** Path rendering *)

(** What the [escape] option does to a string: the first dot becomes the
    separator, the rest of the string is left as it is. *)
Lemma escape_first_dot a b :
  JS.contains "." a = false →
  escape (JS.Str (a +:+ "." +:+ b)) = Some (a +:+ Path.sep +:+ b).
Proof.
  intros Ha. unfold escape. f_equal.
  by apply (replace_first_occurrence a b Path.sep ".").
Qed.

(** C1 (evaluated at its failing input): for the package identifier
    ["com.acme.widget"] the escape function of the path rendering converts
    the first dot only, so the path segment [{%= project.package %}]
    renders to ["com/acme.widget"], not to ["com/acme/widget"]; rendered
    file contents keep their dots. *)
Theorem package_path_converts_first_dot_only :
  escape (JS.Str "com.acme.widget") = Some "com/acme.widget"
  ∧ renderedRelativePath "{%= project.package %}/index.ts" Sample.data
    = Some "com/acme.widget/index.ts"
  ∧ renderedContent "package <%= project.package %>" Sample.data
    = Some "package com.acme.widget".
Proof. by vm_compute. Qed.

(** C2 fails as stated: the path ["$$package.json"] begins with ['$'],
    and its destination still contains a ['$']. *)
Lemma leading_dollar_counterexample :
  Ejs.starts_with "$" "$$package.json" = true
  ∧ renderedRelativePath "$$package.json" Sample.data = Some "$package.json"
  ∧ Path.join ["/work/out"; "$package.json"] = "/work/out/$package.json"
  ∧ JS.contains "$" "/work/out/$package.json" = true.
Proof. by vm_compute. Qed.

(** C2 (amended): for a template file whose relative path is ['$']
    followed by [rest], the path template given to the engine is exactly
    [rest]: the leading marker is stripped once, not repeatedly.  When
    [rest] has no substitution tag the rendered path is [rest] itself, so
    it contains a ['$'] exactly when [rest] does. *)
Theorem leading_dollar_stripped_once rest data :
  renderedRelativePath (String "$" rest) data = Ejs.render rest data path_options
  ∧ (Ejs.plain "{" "}" rest = true →
     renderedRelativePath (String "$" rest) data = Some rest).
Proof.
  split; [done|]. intros Hplain. unfold renderedRelativePath, Ejs.render.
  by apply scan_plain.
Qed.

Lemma leading_dollar_stripped_once_witness :
  renderedRelativePath "$package.json" Sample.data = Some "package.json".
Proof.
  apply (proj2 (leading_dollar_stripped_once "package.json" Sample.data)).
  reflexivity.
Defined.

(** C9: the marker stripping only looks at the first character of the
    whole relative path.  For a path [dir/$rest] with a non-empty [dir],
    the ['$'] that starts the later component is still there in the
    template given to the engine, and, when the part before it renders by
    itself, in the rendered path: the rendering of the part before, then
    ["/$"], then the rendering of what follows. *)
Theorem dollar_inside_path_preserved dir rest data rendered_dir :
  dir ≠ EmptyString →
  Ejs.render (JS.replace_leading_dollar dir) data path_options = Some rendered_dir →
  JS.replace_leading_dollar (dir +:+ "/$" +:+ rest)
  = JS.replace_leading_dollar dir +:+ "/$" +:+ rest
  ∧ renderedRelativePath (dir +:+ "/$" +:+ rest) data
    = (λ r, rendered_dir +:+ "/$" +:+ r) <$> Ejs.render rest data path_options.
Proof.
  intros Hdir Hrender. split; [by apply replace_leading_dollar_app|].
  unfold renderedRelativePath. rewrite replace_leading_dollar_app by done.
  change (JS.replace_leading_dollar dir +:+ "/$" +:+ rest)
    with (JS.replace_leading_dollar dir +:+ String "/" (String "$" rest)).
  rewrite (render_app path_options data _ rendered_dir "/" (String "$" rest));
    [|done..].
  unfold Ejs.render. rewrite !scan_text_cons by done.
  destruct (Ejs.scan path_options data Ejs.Text rest); simpl; [|done].
  by rewrite !string_app_cons.
Qed.

Lemma dollar_inside_path_preserved_witness :
  JS.replace_leading_dollar "sub/$file.ts" = "sub/$file.ts"
  ∧ renderedRelativePath "sub/$file.ts" Sample.data = Some "sub/$file.ts".
Proof.
  apply (dollar_inside_path_preserved "sub" "file.ts" Sample.data "sub");
    [discriminate|reflexivity].
Defined.

(** A path without tags renders to itself, up to the leading marker. *)
Lemma renderedRelativePath_plain file data :
  Ejs.plain "{" "}" file = true →
  renderedRelativePath file data = Some (JS.replace_leading_dollar file).
Proof.
  intros H. unfold renderedRelativePath, Ejs.render.
  by apply scan_plain, plain_replace_leading_dollar.
Qed.

(** ** The discovered files *)

Example getFilesAsync_sample :
  getFilesAsync None Sample.template
  = ["$package.json"; "android/{%= project.package %}/{%- project.name %}Module.kt";
     "README.md"].
Proof. reflexivity. Qed.

(** C4: in a tree whose names are names a directory listing can contain,
    no component of a discovered path is one of the ignored names, at any
    depth. *)
Theorem getFilesAsync_never_ignored t p c :
  Fs.well_named t = true →
  In p (getFilesAsync None t) →
  In c (Path.split Path.sep_char p) →
  JS.includes IGNORES_PATHS c = false.
Proof.
  intros Hwf Hp%list_elem_of_In Hc%list_elem_of_In.
  pose proof (getFilesAsync_clean t None Hwf I) as H.
  rewrite Forall_forall in H. specialize (H p Hp).
  rewrite Forall_forall in H. by destruct (H c Hc).
Qed.

Lemma getFilesAsync_never_ignored_witness :
  JS.includes IGNORES_PATHS "android" = false.
Proof.
  apply (getFilesAsync_never_ignored Sample.template
           "android/{%= project.package %}/{%- project.name %}Module.kt" "android").
  - reflexivity.
  - vm_compute. right. left. reflexivity.
  - vm_compute. left. reflexivity.
Defined.

(** ** Rendering twice *)

(** C3: take a template tree [T] at [templatePath] with proper names, and
    let the rendering be isolated (no destination inside the template
    tree).  If the render step returns, then what it wrote is the value of
    [rendered_files], a function of [T], the target path and the data
    alone; and run again on the result it returns again, writes the same
    paths with the same contents, and leaves the disk byte for byte as it
    was. *)
Theorem render_twice templatePath targetPath data T w w1 :
  Fs.find (Fs.locate templatePath) (disk w) = Some T →
  Fs.well_named T = true →
  isolated T templatePath targetPath data = true →
  createModuleFromTemplate templatePath targetPath data w = (Returned tt, w1) →
  ∃ outs,
    rendered_files T targetPath data (getFilesAsync None T) = Some outs
    ∧ log w1 = log w ++ output_events outs
    ∧ createModuleFromTemplate templatePath targetPath data w1
      = (Returned tt, with_log w1 (output_events outs) (replies w1)).
Proof.
  intros HT Hnames Hiso Hrun.
  assert (Forall clean_file (getFilesAsync None T)) as Hclean.
  { eapply Forall_impl; [exact (getFilesAsync_clean T None Hnames I)|].
    intros file. apply clean_plain. }
  assert (∀ w0, Fs.find (Fs.locate templatePath) (disk w0) = Some T →
                is_Some (match T with Fs.Dir _ => Some tt | _ => None end) →
                listFiles templatePath w0 = (Returned (getFilesAsync None T), w0))
    as Hlist.
  { intros w0 H0 Hdir. unfold listFiles, bind, get_disk. simpl. rewrite H0.
    destruct T; [by destruct Hdir|done]. }
  assert (is_Some (match T with Fs.Dir _ => Some tt | _ => None end)) as Hdir.
  { unfold createModuleFromTemplate, listFiles, bind, get_disk in Hrun.
    simpl in Hrun. rewrite HT in Hrun. destruct T; [done|eauto]. }
  unfold createModuleFromTemplate in Hrun |- *.
  rewrite (bind_returned _ _ _ _ _ (Hlist w HT Hdir)) in Hrun.
  destruct (for_of_returned templatePath targetPath data T _ _ _ HT Hclean Hiso Hrun)
    as (outs & Hrendered & Hwrites & Hlog & Hreplies & HT1).
  exists outs. split_and!; [done..|].
  rewrite (bind_returned _ _ _ _ _ (Hlist w1 HT1 Hdir)).
  apply (for_of_replay templatePath targetPath data T); try done.
  by eapply FsFacts.writes_replay.
Qed.

Lemma render_twice_witness :
  ∃ outs,
    rendered_files Sample.template "/work/out" Sample.data
      (getFilesAsync None Sample.template) = Some outs
    ∧ log Sample.rendered_once = log Sample.with_template ++ output_events outs
    ∧ createModuleFromTemplate "/work/tpl" "/work/out" Sample.data Sample.rendered_once
      = (Returned tt,
         with_log Sample.rendered_once (output_events outs)
                  (replies Sample.rendered_once)).
Proof.
  apply (render_twice "/work/tpl" "/work/out" Sample.data Sample.template
           Sample.with_template Sample.rendered_once);
    vm_compute; reflexivity.
Defined.

(** ** The confirmation, cancellation and the exit status *)

(** C5: with an empty target directory [confirmTargetDirAsync] returns
    without a prompt (the world is unchanged) and the run goes on: [main]
    is then at the data prompts, in the world [ensureDir] left, and when
    they are answered they are the next events of the run, followed by
    the line break that precedes the progress steps; with a target
    directory that is not empty and a user who declines, [main] exits
    with status 0 right there: the disk is as [ensureDir] left it and
    nothing was written or downloaded since the start of the run. *)
Theorem confirmation_before_rendering :
  (∀ targetDir w,
     readdir targetDir w = (Returned [], w) →
     confirmTargetDirAsync targetDir w = (Returned tt, w))
  ∧ (∀ E target options w slug w1 dirname w2,
       askForPackageSlugAsync E target w = (Returned slug, w1) →
       JS.or (of_option target) slug = JS.Str dirname →
       let targetDir := Path.join [CWD E; dirname] in
       ensureDir targetDir w1 = (Returned tt, w2) →
       readdir targetDir w2 = (Returned [], w2) →
       main E target options w = main_after_confirmation E options targetDir slug w2
       ∧ ∀ vs rest,
           replies w2 = map Prompts.Submit vs ++ rest →
           length vs = length (asked (getSubstitutionDataPrompts E slug)) →
           ∃ evs,
             log (main E target options w).2
             = log w2 ++ map Prompted (asked (getSubstitutionDataPrompts E slug))
               ++ ConsoleLog EmptyString :: evs)
  ∧ (∀ E target options w slug w1 dirname w2 files,
       askForPackageSlugAsync E target w = (Returned slug, w1) →
       JS.or (of_option target) slug = JS.Str dirname →
       let targetDir := Path.join [CWD E; dirname] in
       ensureDir targetDir w1 = (Returned tt, w2) →
       readdir targetDir w2 = (Returned files, w2) → files ≠ [] →
       declines (replies w2) = true →
       ∃ w3 evs,
         main E target options w = (Exited 0, w3)
         ∧ disk w3 = disk w2
         ∧ log w3 = log w ++ evs
         ∧ existsb is_output evs = false).
Proof.
  split_and!; [apply confirmTargetDirAsync_empty| |].
  - intros E target options w slug w1 dirname w2 Hslug Hname targetDir Hens Hread.
    assert (main E target options w
            = main_after_confirmation E options targetDir slug w2) as Hmain.
    { rewrite main_unfold, (bind_returned _ _ _ _ _ Hslug), Hname.
      unfold bind at 1. simpl. fold targetDir.
      rewrite (bind_returned _ _ _ _ _ Hens). unfold main_steps.
      by rewrite (bind_returned _ _ _ _ _ (confirmTargetDirAsync_empty _ _ Hread)). }
    split; [done|]. intros vs rest Hr Hl. rewrite Hmain.
    unfold main_after_confirmation. cbv zeta.
    rewrite (bind_returned _ _ _ _ _
               (askForSubstitutionDataAsync_answered _ _ _ _ _ Hr Hl)).
    match goal with
    | |- ∃ evs, log (bind (emit ?e) ?k ?w3).2 = _ =>
        destruct (log_after_emit e k w3) as [evs Hevs]; [intros _; log_only|]
    end.
    exists evs. rewrite Hevs. unfold with_log. simpl. by rewrite <-app_assoc.
  - intros E target options w slug w1 dirname w2 files Hslug Hname targetDir
      Hens Hread Hne Hdecl.
    destruct (silent_askForPackageSlugAsync _ _ _ _ _ Hslug) as (evs1 & Hl1 & Hn1).
    destruct (silent_ensureDir _ _ _ _ Hens) as (evs2 & Hl2 & Hn2).
    eexists _, _. unfold main.
    rewrite (bind_returned _ _ _ _ _ Hslug), Hname. simpl.
    unfold bind at 1. simpl. fold targetDir.
    rewrite (bind_returned _ _ _ _ _ Hens).
    rewrite (bind_exited _ _ _ _ _
               (confirmTargetDirAsync_declined _ _ _ Hread Hne Hdecl)).
    split; [reflexivity|]. split; [reflexivity|].
    unfold with_log. simpl. rewrite Hl2, Hl1, <-!app_assoc. split; [reflexivity|].
    by rewrite !existsb_app, Hn1, Hn2.
Qed.

Lemma confirmation_before_rendering_witness :
  (∃ evs,
     log (main Sample.E None (Sample.options None) Sample.answering).2
     = log Scene.new_after_ensureDir
       ++ map Prompted
            (asked (getSubstitutionDataPrompts Sample.E (JS.Str "acme-widget")))
       ++ ConsoleLog EmptyString :: evs)
  ∧ ∃ w3 evs,
      main Sample.E None (Sample.options None) Sample.declining = (Exited 0, w3)
      ∧ disk w3 = disk Sample.declining_after_ensureDir
      ∧ log w3 = log Sample.declining ++ evs
      ∧ existsb is_output evs = false.
Proof.
  split.
  - apply (proj2 (proj1 (proj2 confirmation_before_rendering) Sample.E None
                    (Sample.options None) Sample.answering (JS.Str "acme-widget")
                    Scene.new_after_slug "acme-widget" Scene.new_after_ensureDir
                    eq_refl eq_refl eq_refl eq_refl)
             Sample.answers []); reflexivity.
  - apply (proj2 (proj2 confirmation_before_rendering) Sample.E None
             (Sample.options None) Sample.declining (JS.Str "acme-widget")
             Sample.declining_after_slug "acme-widget"
             Sample.declining_after_ensureDir ["notes.txt"]);
      try (vm_compute; reflexivity).
    discriminate.
Defined.

(** [main] stops where the confirmation stops. *)
Lemma main_exits_at_confirmation E target options w slug w1 dirname w2 code w3 :
  askForPackageSlugAsync E target w = (Returned slug, w1) →
  JS.or (of_option target) slug = JS.Str dirname →
  ensureDir (Path.join [CWD E; dirname]) w1 = (Returned tt, w2) →
  confirmTargetDirAsync (Path.join [CWD E; dirname]) w2 = (Exited code, w3) →
  main E target options w = (Exited code, w3).
Proof.
  intros Hslug Hname Hens Hconfirm. unfold main.
  rewrite (bind_returned _ _ _ _ _ Hslug), Hname. simpl.
  unfold bind at 1. simpl. rewrite (bind_returned _ _ _ _ _ Hens).
  by rewrite (bind_exited _ _ _ _ _ Hconfirm).
Qed.

(** [main] stops where the data prompts stop. *)
Lemma main_exits_at_data E target options w slug w1 dirname w2 w3 code w4 :
  askForPackageSlugAsync E target w = (Returned slug, w1) →
  JS.or (of_option target) slug = JS.Str dirname →
  ensureDir (Path.join [CWD E; dirname]) w1 = (Returned tt, w2) →
  confirmTargetDirAsync (Path.join [CWD E; dirname]) w2 = (Returned tt, w3) →
  askForSubstitutionDataAsync E slug w3 = (Exited code, w4) →
  main E target options w = (Exited code, w4).
Proof.
  intros Hslug Hname Hens Hconfirm Hdata. unfold main.
  rewrite (bind_returned _ _ _ _ _ Hslug), Hname. simpl.
  unfold bind at 1. simpl. rewrite (bind_returned _ _ _ _ _ Hens).
  rewrite (bind_returned _ _ _ _ _ Hconfirm).
  by rewrite (bind_exited _ _ _ _ _ Hdata).
Qed.

(** C6: cancelling a prompt ends the run with status 0, be it the slug
    prompt, the confirmation of a target directory that is not empty, or
    one of the data prompts; every [process.exit] of a run has status 0,
    and the exit status of a run is not 0 exactly when a step failed and
    nothing caught the failure. *)
Theorem cancellation_exits_zero E target options w :
  (cancels (length (asked (getSlugPrompt E target))) (replies w) = true →
   (main E target options w).1 = Exited 0)
  ∧ (∀ slug w1 dirname w2,
       askForPackageSlugAsync E target w = (Returned slug, w1) →
       JS.or (of_option target) slug = JS.Str dirname →
       let targetDir := Path.join [CWD E; dirname] in
       ensureDir targetDir w1 = (Returned tt, w2) →
       (∀ files,
          readdir targetDir w2 = (Returned files, w2) → files ≠ [] →
          cancels 1 (replies w2) = true →
          (main E target options w).1 = Exited 0)
       ∧ (∀ w3,
            confirmTargetDirAsync targetDir w2 = (Returned tt, w3) →
            cancels (length (asked (getSubstitutionDataPrompts E slug))) (replies w3)
            = true →
            (main E target options w).1 = Exited 0))
  ∧ (∀ c, (main E target options w).1 = Exited c → c = 0%Z)
  ∧ (exit_status (main E target options w).1 ≠ 0%Z
     ↔ ∃ e, (main E target options w).1 = Thrown e).
Proof.
  assert (∀ c, (main E target options w).1 = Exited c → c = 0%Z) as Hexit.
  { intros c Hc. destruct (main E target options w) as [o w'] eqn:Hm.
    simpl in Hc. subst o. by eapply exits_zero_main. }
  split_and!; [| |done|].
  - intros Hc.
    destruct (prompts_cancel_exits _ 0 ∅ _ Hc) as (evs & rs & Hp & _).
    unfold main, askForPackageSlugAsync.
    by rewrite (bind_exited _ _ _ _ _ (bind_exited _ _ _ _ _ Hp)).
  - intros slug w1 dirname w2 Hslug Hname targetDir Hens. split.
    + intros files Hread Hne Hc.
      assert (declines (replies w2) = true) as Hdecl
        by (by destruct (replies w2) as [|[]]).
      by rewrite (main_exits_at_confirmation E target options _ _ _ _ _ _ _
                    Hslug Hname Hens
                    (confirmTargetDirAsync_declined _ _ _ Hread Hne Hdecl)).
    + intros w3 Hconfirm Hc.
      destruct (prompts_cancel_exits _ 0 ∅ _ Hc) as (evs & rs & Hp & _).
      by rewrite (main_exits_at_data E target options _ _ _ _ _ _ _ _
                    Hslug Hname Hens Hconfirm (bind_exited _ _ _ _ _ Hp)).
  - destruct (main E target options w).1 as [[]|c|e] eqn:Ho; simpl.
    + split; [done|]. by intros [e ?].
    + rewrite (Hexit c eq_refl). split; [done|]. by intros [e ?].
    + split; [eauto|done].
Qed.

Lemma cancellation_exits_zero_witness :
  (main Sample.E None (Sample.options None) (Sample.scene [Prompts.Cancel] [])).1
  = Exited 0.
Proof.
  apply (proj1 (cancellation_exits_zero Sample.E None (Sample.options None)
                  (Sample.scene [Prompts.Cancel] []))).
  reflexivity.
Defined.

(** A whole run on the sample: the target directory is new, so no
    confirmation is asked; the template is downloaded and rendered, and
    the package directory is written one level deep. *)
Example main_sample_run :
  let '(o, w) := main Sample.E None (Sample.options None) Sample.answering in
  o = Returned tt
  ∧ In (OutputFile "/work/acme-widget/android/com/acme.widget/AcmeWidgetModule.kt"
                   "package com.acme.widget") (log w)
  ∧ existsb (λ e, match e with
                  | Prompted q => String.eqb (Prompts.name q) "shouldContinue"
                  | _ => false
                  end) (log w) = false.
Proof.
  vm_compute. split_and!; [done| |done].
  repeat (first [left; reflexivity | right]).
Qed.

(** ** The substitution data *)

(** C7: whatever the answers to the data prompts, the record returned has
    the license ["MIT"], and its author is the one string
    [name <email> (url)] made of the answers called [authorName],
    [authorEmail] and [authorUrl]. *)
Theorem substitution_data_author_license E slug vs rest w :
  replies w = map Prompts.Submit vs ++ rest →
  length vs = length (asked (getSubstitutionDataPrompts E slug)) →
  let answers := collect (getSubstitutionDataPrompts E slug) vs ∅ in
  ∃ d w',
    askForSubstitutionDataAsync E slug w = (Returned d, w')
    ∧ license d = "MIT"
    ∧ author d = JS.to_string (prop answers "authorName") +:+ " <"
                 +:+ JS.to_string (prop answers "authorEmail") +:+ "> ("
                 +:+ JS.to_string (prop answers "authorUrl") +:+ ")".
Proof.
  intros Hr Hl answers. eexists _, _.
  by rewrite (askForSubstitutionDataAsync_answered _ _ _ _ _ Hr Hl).
Qed.

Lemma substitution_data_author_license_witness :
  ∃ d w',
    askForSubstitutionDataAsync Sample.E (JS.Str "acme-widget")
      (Sample.scene (map Prompts.Submit Sample.answers) []) = (Returned d, w')
    ∧ license d = "MIT"
    ∧ author d = "Ann <ann@acme.com> (https://acme.com)".
Proof.
  exact (substitution_data_author_license Sample.E (JS.Str "acme-widget")
           Sample.answers [] (Sample.scene (map Prompts.Submit Sample.answers) [])
           eq_refl eq_refl).
Defined.

(** C10: the record returned by [askForSubstitutionDataAsync] always has
    the version ["0.1.0"], and one is returned whenever no data prompt is
    cancelled. *)
Theorem substitution_data_version E slug w :
  (∀ d w', askForSubstitutionDataAsync E slug w = (Returned d, w') →
           version (project d) = "0.1.0")
  ∧ (cancels (length (asked (getSubstitutionDataPrompts E slug))) (replies w) = false →
     ∃ d w', askForSubstitutionDataAsync E slug w = (Returned d, w')
             ∧ version (project d) = "0.1.0").
Proof.
  split.
  - intros d w'. unfold askForSubstitutionDataAsync, bind.
    destruct (prompts _ _ _ _) as [[answers|c|e] w1]; [|done..].
    by intros [= <- _].
  - intros (vs & rest & Hr & Hl)%cancels_false. eexists _, _.
    by rewrite (askForSubstitutionDataAsync_answered _ _ _ _ _ Hr Hl).
Qed.

Lemma substitution_data_version_witness :
  ∃ d w',
    askForSubstitutionDataAsync Sample.E (JS.Str "acme-widget")
      (Sample.scene (map Prompts.Submit Sample.answers) []) = (Returned d, w')
    ∧ version (project d) = "0.1.0".
Proof.
  apply (proj2 (substitution_data_version Sample.E (JS.Str "acme-widget")
                  (Sample.scene (map Prompts.Submit Sample.answers) []))).
  reflexivity.
Defined.

(** ** The template root *)

(** C8: with a local source path the template root is that path joined
    to the working directory, and nothing else happens (no registry
    lookup, no download).  Without one, the registry is asked for
    [expo-module-template@next] when [EXPO_BETA] is set and for
    [expo-module-template@latest] otherwise, the tarball at the trimmed
    answer is unpacked below the target directory, and the template root
    is the [package] directory of the target directory. *)
Theorem packagePath_acquisition E options targetDir w :
  (∀ s, CommandOptions.source options = Some s → s ≠ EmptyString →
        packagePath E options targetDir w = (Returned (Path.join [CWD E; s]), w))
  ∧ (JS.truthy (of_option (CommandOptions.source options)) = false →
     ∀ stdout tree d',
       npm_view_stdout E ("expo-module-template" +:+ "@"
                          +:+ (if EXPO_BETA E then "next" else "latest")) = Some stdout →
       tarball E (JS.trim stdout) = Some tree →
       Fs.extract (Fs.locate targetDir) tree (disk w) = Some d' →
       packagePath E options targetDir w
       = (Returned (Path.join [targetDir; "package"]),
          {| replies := replies w; disk := d';
             log := log w ++
               [StepStarted "Downloading module template from npm";
                NpmView ("expo-module-template" +:+ "@"
                         +:+ (if EXPO_BETA E then "next" else "latest"));
                DownloadTarball (JS.trim stdout) targetDir;
                StepSucceeded "Downloaded module template from npm"] |})).
Proof.
  split.
  - intros s Hs Hne. unfold packagePath. rewrite Hs. simpl.
    by rewrite (proj2 (String.eqb_neq _ _) Hne).
  - intros Hsrc stdout tree d' Hnpm Htar Hex. unfold packagePath. rewrite Hsrc.
    unfold downloadPackageAsync, newStep, getNpmTarballUrl, downloadTarball,
      succeed, on_disk, bind, emit, try, get_disk, put_disk, ret.
    simpl. rewrite Hnpm. simpl. rewrite Htar. simpl. rewrite Hex. simpl.
    by rewrite <-!app_assoc.
Qed.

Lemma packagePath_acquisition_witness :
  packagePath Sample.E (Sample.options (Some "tpl")) "/work/acme-widget"
    Sample.with_template
  = (Returned "/work/tpl", Sample.with_template).
Proof.
  apply (proj1 (packagePath_acquisition Sample.E (Sample.options (Some "tpl"))
                  "/work/acme-widget" Sample.with_template) "tpl");
    [reflexivity|discriminate].
Defined.

(** The other branch of C8 on the sample: the download. *)
Example packagePath_download :
  (packagePath Sample.E (Sample.options None) "/work/acme-widget"
     (Sample.scene [] [("acme-widget", Fs.Dir [])])).1
  = Returned "/work/acme-widget/package".
Proof. by vm_compute. Qed.

(* ================================================================== *)
(** * Further properties: the template walk *)
(* ================================================================== *)

Lemma unique_names_cons name x rest :
  unique_names (Fs.Dir ((name, x) :: rest))
  = negb (existsb (String.eqb name) (map fst rest))
    && unique_names x && unique_names (Fs.Dir rest).
Proof. reflexivity. Qed.

(** In a directory without repeated names every listed entry is the one
    [lstat] finds under its name. *)
Lemma unique_lookup es : ∀ f x,
  unique_names (Fs.Dir es) = true → In (f, x) es → Fs.lookup_entry f es = Some x.
Proof.
  induction es as [|[n y] es IH]; intros f x Hu Hin; [done|].
  rewrite unique_names_cons in Hu.
  apply andb_true_iff in Hu as [[Hn _]%andb_true_iff Hrest].
  simpl. destruct Hin as [[= -> ->]|Hin]; [by rewrite String.eqb_refl|].
  destruct (String.eqb_spec n f) as [->|Hne]; [exfalso|by apply IH].
  apply negb_true_iff in Hn.
  assert (existsb (String.eqb f) (map fst es) = true) as Hex; [|congruence].
  apply existsb_exists. exists f. split; [|apply String.eqb_refl].
  apply in_map_iff. by exists (f, x).
Qed.

Lemma well_named_lookup es f child :
  Fs.well_named (Fs.Dir es) = true → Fs.lookup_entry f es = Some child →
  Path.entry_name f = true ∧ Fs.well_named child = true.
Proof.
  induction es as [|[n y] es IH]; intros Hwf Hl; [done|].
  rewrite well_named_cons in Hwf.
  apply andb_true_iff in Hwf as [[Hn Hy]%andb_true_iff Hrest].
  simpl in Hl. destruct (String.eqb_spec n f) as [<-|Hne].
  - by injection Hl as <-.
  - by apply IH.
Qed.

Lemma contains_app c a b : JS.contains c (a +:+ String c b) = true.
Proof.
  induction a as [|x a IH]; simpl; [by rewrite Ascii.eqb_refl|].
  by rewrite IH, orb_true_r.
Qed.

Lemma clean_dir_nonempty d : clean_dir (Some d) → d ≠ EmptyString.
Proof. intros H ->. simpl in H. by inversion H as [|?? [? ?]]. Qed.

(** Below the root the relative path is the directory, a separator and
    the name. *)
Lemma relativePath_join dir file :
  clean_dir dir → Path.entry_name file = true →
  relativePath dir file
  = match dir with
    | Some d => d +:+ String Path.sep_char file
    | None => file
    end.
Proof.
  intros Hdir Hname. unfold relativePath. destruct dir as [d|]; [|done].
  rewrite (proj2 (String.eqb_neq _ _) (clean_dir_nonempty _ Hdir)).
  by rewrite join_dir_file by (done || by apply clean_plain).
Qed.

Lemma split_relativePath dir file :
  clean_dir dir → Path.entry_name file = true →
  Path.split Path.sep_char (relativePath dir file) = dir_segments dir ++ [file].
Proof.
  intros Hdir Hname. rewrite relativePath_join by done.
  destruct (entry_name_spec _ Hname) as [_ Hnosep].
  destruct dir as [d|]; simpl.
  - by rewrite split_app, (split_no_sep _ _ Hnosep).
  - by apply split_no_sep.
Qed.

(** No ignored name has a separator, so below the root no relative path
    is one. *)
Lemma relativePath_not_ignored d file :
  clean_dir (Some d) → Path.entry_name file = true →
  JS.includes IGNORES_PATHS (relativePath (Some d) file) = false.
Proof.
  intros Hdir Hname. rewrite relativePath_join by done.
  apply not_true_is_false. intros Hin.
  pose proof (contains_app Path.sep_char d file) as Hsep.
  unfold JS.includes, IGNORES_PATHS in Hin. simpl in Hin.
  repeat (apply orb_true_iff in Hin as [Hin|Hin];
          [apply String.eqb_eq in Hin; rewrite Hin in Hsep; discriminate|]).
  done.
Qed.

(** What an entry that is not skipped contributes is part of the result. *)
Lemma getFilesAsync_entry dir es : ∀ f child q,
  Fs.lookup_entry f es = Some child →
  JS.includes IGNORES_PATHS (relativePath dir f) || JS.includes IGNORES_PATHS f = false →
  In q (if Fs.isDirectory child
        then getFilesAsync (Some (relativePath dir f)) child
        else [relativePath dir f]) →
  In q (getFilesAsync dir (Fs.Dir es)).
Proof.
  induction es as [|[n y] es IH]; intros f child q Hl Hign Hq; [done|].
  rewrite getFilesAsync_cons. simpl in Hl.
  destruct (String.eqb_spec n f) as [->|Hne].
  - injection Hl as ->. rewrite Hign. apply in_or_app. by left.
  - specialize (IH f child q Hl Hign Hq).
    destruct (JS.includes IGNORES_PATHS (relativePath dir n)
              || JS.includes IGNORES_PATHS n); [done|]. apply in_or_app. by right.
Qed.

Lemma getFilesAsync_complete_from walk : ∀ base dir c,
  Fs.well_named base = true → clean_dir dir →
  Forall (λ s, JS.includes IGNORES_PATHS s = false) walk →
  walk ≠ [] → Fs.content walk base = Some c →
  ∃ p, In p (getFilesAsync dir base)
       ∧ Path.split Path.sep_char p = dir_segments dir ++ walk.
Proof.
  induction walk as [|f rest IH]; intros base dir c Hwf Hdir Hnames Hne Hc; [done|].
  destruct base as [c0|es]; [done|]. rewrite FsFacts.content_cons in Hc.
  destruct (Fs.lookup_entry f es) as [child|] eqn:Hl; [|done]. simpl in Hc.
  inversion_clear Hnames as [|?? Hf Hrest].
  destruct (well_named_lookup _ _ _ Hwf Hl) as [Hname Hchild].
  assert (JS.includes IGNORES_PATHS (relativePath dir f)
          || JS.includes IGNORES_PATHS f = false) as Hign.
  { destruct dir as [d|]; [|by rewrite orb_diag].
    by rewrite relativePath_not_ignored. }
  pose proof (relativePath_clean dir f Hdir Hname Hf) as Hrp.
  destruct rest as [|f2 rest].
  - rewrite FsFacts.content_nil in Hc. destruct child as [c1|]; [|done].
    exists (relativePath dir f). split.
    + eapply getFilesAsync_entry; [done..|]. by left.
    + by apply split_relativePath.
  - destruct child as [c1|sub]; [done|].
    destruct (IH (Fs.Dir sub) (Some (relativePath dir f)) c Hchild Hrp Hrest
                ltac:(done) Hc) as (p & Hp & Hsplit).
    exists p. split.
    + by eapply getFilesAsync_entry.
    + rewrite Hsplit. simpl. rewrite split_relativePath by done.
      by rewrite <-app_assoc.
Qed.

Lemma getFilesAsync_sound_from base : ∀ dir p,
  Fs.well_named base = true → unique_names base = true → clean_dir dir →
  In p (getFilesAsync dir base) →
  ∃ walk c, walk ≠ [] ∧ Fs.content walk base = Some c
            ∧ Path.split Path.sep_char p = dir_segments dir ++ walk.
Proof.
  induction base as [c|es IH] using node_ind'; intros dir p Hwf Hu Hdir Hp; [done|].
  assert (∀ f x, In (f, x) es → Fs.lookup_entry f es = Some x) as Hl
    by (intros f x; by apply unique_lookup).
  revert Hl Hp Hwf Hu IH. generalize es at 1 3 4 5 6. intros es'.
  induction es' as [|[file stat] rest IHrest]; intros Hl Hp Hwf Hu IH; [done|].
  rewrite getFilesAsync_cons in Hp. rewrite well_named_cons in Hwf.
  rewrite unique_names_cons in Hu.
  apply andb_true_iff in Hwf as [[Hname Hstat]%andb_true_iff Hwrest].
  apply andb_true_iff in Hu as [[_ Hustat]%andb_true_iff Hurest].
  inversion_clear IH as [|?? IHstat IHes].
  assert (∀ f x, In (f, x) rest → Fs.lookup_entry f es = Some x) as Hlrest
    by (intros f x Hin; apply Hl; by right).
  destruct (JS.includes IGNORES_PATHS (relativePath dir file)
            || JS.includes IGNORES_PATHS file) eqn:Hign; [by apply IHrest|].
  apply in_app_or in Hp as [Hp|Hp]; [|by apply IHrest].
  apply orb_false_iff in Hign as [_ Hfile].
  pose proof (relativePath_clean dir file Hdir Hname Hfile) as Hrp.
  specialize (Hl file stat (or_introl eq_refl)).
  destruct stat as [c|sub]; simpl in Hp.
  - destruct Hp as [<-|[]]. exists [file], c. split_and!; [done| |].
    + by rewrite FsFacts.content_cons, Hl.
    + by apply split_relativePath.
  - destruct (IHstat (Some (relativePath dir file)) p Hstat Hustat Hrp Hp)
      as (walk & c & Hne & Hc & Hsplit).
    exists (file :: walk), c. split_and!; [done| |].
    + by rewrite FsFacts.content_cons, Hl.
    + rewrite Hsplit. simpl. rewrite split_relativePath by done.
      by rewrite <-app_assoc.
Qed.

(** X1: of the two tests that skip an entry, the one on the relative
    path never decides: in a scan of a directory reached by the walk, an
    entry is skipped exactly when its own name is an ignored name. *)
Theorem getFilesAsync_skips_by_name dir file :
  clean_dir dir → Path.entry_name file = true →
  JS.includes IGNORES_PATHS (relativePath dir file) || JS.includes IGNORES_PATHS file
  = JS.includes IGNORES_PATHS file.
Proof.
  intros Hdir Hname. destruct dir as [d|].
  - by rewrite relativePath_not_ignored.
  - apply orb_diag.
Qed.

Lemma getFilesAsync_skips_by_name_witness :
  JS.includes IGNORES_PATHS (relativePath (Some "android") "build")
  || JS.includes IGNORES_PATHS "build"
  = JS.includes IGNORES_PATHS "build".
Proof.
  apply (getFilesAsync_skips_by_name (Some "android") "build"); [|reflexivity].
  vm_compute. repeat constructor.
Defined.

(** X2: in a tree with proper names, none of them twice in a directory,
    every discovered path is the walk of an entry of the tree, and that
    entry is not a directory: the scan invents no path and returns no
    directory. *)
Theorem getFilesAsync_sound T p :
  Fs.well_named T = true → unique_names T = true →
  In p (getFilesAsync None T) →
  ∃ n, Fs.find (Path.split Path.sep_char p) T = Some n ∧ Fs.isDirectory n = false.
Proof.
  intros Hwf Hu Hp.
  destruct (getFilesAsync_sound_from T None p Hwf Hu I Hp) as (walk & c & _ & Hc & ->).
  simpl. unfold Fs.content in Hc.
  destruct (Fs.find walk T) as [[c'|es]|]; [|done..]. by exists (Fs.File c').
Qed.

Lemma getFilesAsync_sound_witness :
  ∃ n, Fs.find
         (Path.split Path.sep_char
            "android/{%= project.package %}/{%- project.name %}Module.kt")
         Sample.template = Some n
       ∧ Fs.isDirectory n = false.
Proof.
  apply (getFilesAsync_sound Sample.template
           "android/{%= project.package %}/{%- project.name %}Module.kt").
  - reflexivity.
  - reflexivity.
  - vm_compute. right. left. reflexivity.
Defined.

(** X3: in a tree with proper names, every regular file whose walk has no
    ignored name is discovered, under its walk joined by the separator. *)
Theorem getFilesAsync_complete T walk c :
  Fs.well_named T = true →
  Fs.content walk T = Some c → walk ≠ [] →
  Forall (λ s, JS.includes IGNORES_PATHS s = false) walk →
  In (String.concat Path.sep walk) (getFilesAsync None T).
Proof.
  intros Hwf Hc Hne Hnames.
  destruct (getFilesAsync_complete_from walk T None c Hwf I Hnames Hne Hc)
    as (p & Hp & Hsplit).
  simpl in Hsplit. rewrite <-Hsplit.
  change Path.sep with (String Path.sep_char EmptyString).
  by rewrite concat_split.
Qed.

Lemma getFilesAsync_complete_witness :
  In (String.concat Path.sep
        ["android"; "{%= project.package %}"; "{%- project.name %}Module.kt"])
     (getFilesAsync None Sample.template).
Proof.
  apply (getFilesAsync_complete Sample.template
           ["android"; "{%= project.package %}"; "{%- project.name %}Module.kt"]
           "package <%- project.package %>").
  - reflexivity.
  - reflexivity.
  - discriminate.
  - vm_compute. repeat constructor.
Defined.

(** X4: an ignored name is shipped under a leading ['$']: a regular file
    of the template root called ['$'] and an ignored name is discovered,
    and its destination is the ignored name. *)
Theorem dollar_ships_ignored_name T name c data :
  In name IGNORES_PATHS →
  Fs.content [String "$" name] T = Some c →
  In (String "$" name) (getFilesAsync None T)
  ∧ renderedRelativePath (String "$" name) data = Some name.
Proof.
  intros Hname Hc. destruct T as [c0|es]; [done|].
  rewrite FsFacts.content_cons in Hc.
  destruct (Fs.lookup_entry (String "$" name) es) as [child|] eqn:Hl; [|done].
  simpl in Hc. rewrite FsFacts.content_nil in Hc. destruct child as [c1|]; [|done].
  split.
  - eapply getFilesAsync_entry; [exact Hl| |by left].
    simpl in Hname. by destruct Hname as [<-|[<-|[<-|[<-|[]]]]].
  - simpl in Hname. by destruct Hname as [<-|[<-|[<-|[<-|[]]]]].
Qed.

Lemma dollar_ships_ignored_name_witness :
  In "$package.json" (getFilesAsync None Sample.template)
  ∧ renderedRelativePath "$package.json" Sample.data = Some "package.json".
Proof.
  apply (dollar_ships_ignored_name Sample.template "package.json"
           "{ name: <%- project.slug %>, version: <%- project.version %> }").
  - vm_compute. right. right. right. left. reflexivity.
  - reflexivity.
Defined.

(* ================================================================== *)
(** * Further properties: rendering *)
(* ================================================================== *)

Lemma replace_absent x rep s :
  JS.contains x s = false → JS.replace (String x EmptyString) rep s = s.
Proof.
  induction s as [|y s IH]; intros Hs; [done|].
  cbn [JS.contains] in Hs. apply orb_false_iff in Hs as [Hy Hs].
  cbn [JS.replace String.prefix].
  destruct (Ascii.ascii_dec x y) as [->|Hxy]; [by rewrite Ascii.eqb_refl in Hy|].
  by rewrite (IH Hs).
Qed.

(** The scanner inside a tag of the path rendering: an expression
    without ['%'], followed by a space, runs to the closing delimiter. *)
Lemma scan_path_tag data t body : ∀ code s2,
  JS.contains "%" body = false →
  Ejs.scan path_options data (Ejs.InTag t code)
    (body +:+ String " " (String "%" (String "}" s2)))
  = out ← Ejs.emit path_options data t (code +:+ body +:+ " ");
    rest ← Ejs.scan path_options data Ejs.Text s2;
    Some (out +:+ rest).
Proof.
  induction body as [|a body IH]; intros code s2 Hb.
  - rewrite !string_app_nil. rewrite scan_cons.
    cbn [Ascii.eqb Bool.eqb andb orb Ejs.starts_with Ejs.starts_with2
         Ejs.openDelimiter Ejs.closeDelimiter path_options].
    rewrite scan_cons. reflexivity.
  - simpl in Hb. apply orb_false_iff in Hb as [Ha Hb].
    rewrite (string_app_cons a body), scan_cons. rewrite Ha. cbn [andb].
    set (tl := String " " (String "%" (String "}" s2))).
    assert (Ejs.starts_with "%" (body +:+ tl) = false) as ->.
    { destruct body as [|b body]; [done|]. simpl in Hb.
      apply orb_false_iff in Hb as [Hb _]. rewrite string_app_cons.
      cbn [Ejs.starts_with]. by rewrite Ascii.eqb_sym. }
    assert (Ejs.starts_with2 "%" (Ejs.closeDelimiter path_options) (body +:+ tl)
            = false) as ->.
    { destruct body as [|b body]; [done|]. simpl in Hb.
      apply orb_false_iff in Hb as [Hb _]. rewrite string_app_cons.
      cbn [Ejs.starts_with2]. by rewrite Ascii.eqb_sym, Hb. }
    rewrite !andb_false_r. unfold tl. rewrite IH by done.
    by rewrite string_app_assoc.
Qed.

(** X5: an escaped tag at the start of a template path goes through the
    [escape] option of the path rendering.  When the expression is a
    string its first dot becomes the separator and the others stay; a
    string without a dot is copied; and a value that is not a string
    makes the rendering of the path throw, whatever follows the tag. *)
Theorem path_tag_escaped data body rest v :
  JS.contains "%" body = false →
  Ejs.eval data (body +:+ " ") = Some v →
  (∀ a b, v = JS.Str (a +:+ "." +:+ b) → JS.contains "." a = false →
     renderedRelativePath ("{%=" +:+ body +:+ " %}" +:+ rest) data
     = (λ r, a +:+ "/" +:+ b +:+ r) <$> Ejs.render rest data path_options)
  ∧ (∀ s, v = JS.Str s → JS.contains "." s = false →
     renderedRelativePath ("{%=" +:+ body +:+ " %}" +:+ rest) data
     = (λ r, s +:+ r) <$> Ejs.render rest data path_options)
  ∧ ((∀ s, v ≠ JS.Str s) →
     renderedRelativePath ("{%=" +:+ body +:+ " %}" +:+ rest) data = None).
Proof.
  intros Hb Hv.
  assert (renderedRelativePath ("{%=" +:+ body +:+ " %}" +:+ rest) data
          = out ← escape v; r ← Ejs.render rest data path_options; Some (out +:+ r))
    as Hrender.
  { unfold renderedRelativePath, Ejs.render.
    change ("{%=" +:+ body +:+ " %}" +:+ rest)
      with (String "{" (String "%" (String "="
              (body +:+ String " " (String "%" (String "}" rest)))))).
    cbn [JS.replace_leading_dollar]. rewrite scan_cons.
    cbn [Ascii.eqb Bool.eqb andb Ejs.starts_with Ejs.openDelimiter path_options].
    rewrite scan_path_tag by done. rewrite string_app_nil.
    unfold Ejs.emit. by rewrite Hv. }
  rewrite Hrender. split_and!.
  - intros a b -> Ha. rewrite (escape_first_dot a b Ha). simpl.
    destruct (Ejs.render rest data path_options); simpl; [|done].
    by rewrite !string_app_assoc.
  - intros s -> Hs. unfold escape. by rewrite replace_absent.
  - intros Hs. destruct v as [|s|b]; [done|by destruct (Hs s)|done].
Qed.

Lemma path_tag_escaped_witness :
  renderedRelativePath "{%= project.package %}/index.ts" Sample.data
  = Some "com/acme.widget/index.ts".
Proof.
  exact (proj1 (path_tag_escaped Sample.data " project.package" "/index.ts"
                  (JS.Str "com.acme.widget") eq_refl eq_refl)
           "com" "acme.widget" eq_refl eq_refl).
Defined.

(** X6: a template file without tags in its name or in its text, and
    whose text is well-formed UTF-8, is copied as it is, under its own
    name less one leading ['$']. *)
Theorem plain_file_copied tp tg data file c w :
  Ejs.plain "{" "}" file = true →
  Fs.content (Fs.locate (Path.join [tp; file])) (disk w) = Some c →
  Utf8.valid c = true →
  Ejs.plain "<" ">" c = true →
  loop_body tp tg data file w
  = outputFile (Path.join [tg; JS.replace_leading_dollar file]) c w.
Proof.
  intros Hfile Hc _ Hplain. unfold loop_body.
  rewrite (renderedRelativePath_plain _ _ Hfile).
  cbv beta iota delta [bind try ret]. rewrite readFile_run, Hc.
  unfold renderedContent, Ejs.render.
  by rewrite (scan_plain Ejs.default_options data c Hplain).
Qed.

Lemma plain_file_copied_witness :
  loop_body "/work/tpl" "/work/out" Sample.data "$gitignore" Scene.with_plain_file
  = outputFile "/work/out/gitignore" "node_modules/" Scene.with_plain_file.
Proof.
  apply (plain_file_copied "/work/tpl" "/work/out" Sample.data "$gitignore"
           "node_modules/" Scene.with_plain_file); reflexivity.
Defined.

(** ** What the loop does to the disk *)

Lemma writes_written ws : ∀ t t', Fs.writes ws t = Some t' → written ws t = t'.
Proof.
  induction ws as [|[p c] ws IH]; intros t t' H; simpl in *; [by injection H|].
  destruct (Fs.write p c t) as [t1|]; [|done]. by apply IH.
Qed.

(** What one turn of the loop does: nothing (the rendering or the read
    failed), or one [outputFile]. *)
Lemma loop_body_effect tp tg data file w :
  (∃ e, loop_body tp tg data file w = (Thrown e, w))
  ∨ (∃ to c, loop_body tp tg data file w = outputFile to c w).
Proof.
  unfold loop_body.
  destruct (renderedRelativePath file data) as [r|]; simpl;
    [|left; eexists; reflexivity].
  cbv beta iota delta [bind try ret throw]. rewrite readFile_run.
  destruct (Fs.content _ _) as [template|]; [|left; eexists; reflexivity].
  destruct (renderedContent template data) as [c|]; simpl;
    [|left; eexists; reflexivity].
  right. by eexists _, _.
Qed.

Lemma for_of_loop_effect tp tg data files : ∀ w o w',
  for_of files (loop_body tp tg data) w = (o, w') →
  ∃ outs,
    replies w' = replies w
    ∧ log w' = log w ++ output_events outs
    ∧ disk w' = written (located outs) (disk w)
    ∧ match o with
      | Returned _ => Fs.writes (located outs) (disk w) = Some (disk w')
      | Exited _ => False
      | Thrown _ => True
      end.
Proof.
  induction files as [|file files IH]; intros w o w' Hrun.
  - injection Hrun as <- <-. exists []. by rewrite app_nil_r.
  - cbn [for_of] in Hrun. unfold bind at 1 in Hrun.
    destruct (loop_body_effect tp tg data file w) as [[e He]|(to & c & Hb)].
    + rewrite He in Hrun. injection Hrun as <- <-. exists [].
      by rewrite app_nil_r.
    + rewrite Hb, outputFile_run in Hrun.
      destruct (Fs.write (Fs.locate to) c (disk w)) as [d1|] eqn:Hw.
      * destruct (IH _ _ _ Hrun) as (outs & Hrep & Hlog & Hdisk & Ho).
        exists ((to, c) :: outs). simpl in *. rewrite Hw. simpl.
        split_and!; try done. by rewrite Hlog, <-app_assoc.
      * injection Hrun as <- <-. exists [(to, c)]. simpl. by rewrite Hw.
Qed.

(** [createModuleFromTemplate] is the loop over the discovered files, or
    it throws at once because the template root cannot be listed. *)
Lemma createModuleFromTemplate_cases tp tg data w o w' :
  createModuleFromTemplate tp tg data w = (o, w') →
  (∃ files, for_of files (loop_body tp tg data) w = (o, w'))
  ∨ (∃ e, o = Thrown e ∧ w' = w).
Proof.
  unfold createModuleFromTemplate, listFiles. unfold bind at 1 2, get_disk.
  destruct (Fs.find (Fs.locate tp) (disk w)) as [[c|es]|]; simpl.
  - intros [= <- <-]. right. eauto.
  - intros H. left. eauto.
  - intros [= <- <-]. right. eauto.
Qed.







(** X7: all that [createModuleFromTemplate] does is write files: it
    shows no prompt, it never ends the process, its events are
    [outputFile] calls, and the disk is what those writes make of it, one
    after the other, up to the first that fails; when it returns every
    one of them succeeded. *)
Theorem createModuleFromTemplate_effects tp tg data w o w' :
  createModuleFromTemplate tp tg data w = (o, w') →
  ∃ outs,
    replies w' = replies w
    ∧ log w' = log w ++ output_events outs
    ∧ disk w' = written (located outs) (disk w)
    ∧ match o with
      | Returned _ => Fs.writes (located outs) (disk w) = Some (disk w')
      | Exited _ => False
      | Thrown _ => True
      end.
Proof.
  intros [[files Hloop]|(e & -> & ->)]%createModuleFromTemplate_cases.
  - by eapply for_of_loop_effect.
  - exists []. by rewrite app_nil_r.
Qed.

Lemma createModuleFromTemplate_effects_witness :
  ∃ outs,
    replies Sample.rendered_once = replies Sample.with_template
    ∧ log Sample.rendered_once = log Sample.with_template ++ output_events outs
    ∧ disk Sample.rendered_once = written (located outs) (disk Sample.with_template)
    ∧ Fs.writes (located outs) (disk Sample.with_template)
      = Some (disk Sample.rendered_once).
Proof.
  apply (createModuleFromTemplate_effects "/work/tpl" "/work/out" Sample.data
           Sample.with_template (Returned tt) Sample.rendered_once).
  vm_compute. reflexivity.
Defined.





(** X10: take a template root that is a directory with proper names and
    texts in well-formed UTF-8, an isolated rendering, and let every
    discovered file render (path and text).  Then
    [createModuleFromTemplate] returns exactly when every write
    succeeds, having written those files in listing order and nothing
    else; and it throws when a write fails. *)
Theorem createModuleFromTemplate_returns tp tg data es w outs :
  Fs.find (Fs.locate tp) (disk w) = Some (Fs.Dir es) →
  Fs.well_named (Fs.Dir es) = true →
  decodable (Fs.Dir es) = true →
  isolated (Fs.Dir es) tp tg data = true →
  rendered_files (Fs.Dir es) tg data (getFilesAsync None (Fs.Dir es)) = Some outs →
  match Fs.writes (located outs) (disk w) with
  | Some d' =>
      createModuleFromTemplate tp tg data w
      = (Returned tt, {| replies := replies w; disk := d';
                         log := log w ++ output_events outs |})
  | None => ∃ e w', createModuleFromTemplate tp tg data w = (Thrown e, w')
  end.
Proof.
  intros HT Hnames _ Hiso Hrf.
  assert (Forall clean_file (getFilesAsync None (Fs.Dir es))) as Hclean.
  { eapply Forall_impl; [exact (getFilesAsync_clean _ None Hnames I)|].
    intros file. apply clean_plain. }
  assert (createModuleFromTemplate tp tg data w
          = for_of (getFilesAsync None (Fs.Dir es)) (loop_body tp tg data) w) as Hloop.
  { unfold createModuleFromTemplate, listFiles, bind, get_disk. by rewrite HT. }
  rewrite Hloop. destruct (Fs.writes _ _) as [d'|] eqn:Hw.
  - by apply (for_of_replay tp tg data (Fs.Dir es)).
  - destruct (for_of _ _ w) as [[[]|c|e] w'] eqn:Hrun.
    + destruct (for_of_returned tp tg data (Fs.Dir es) _ _ _ HT Hclean Hiso Hrun)
        as (outs' & Hrf' & Hw' & _).
      congruence.
    + by destruct (for_of_loop_effect _ _ _ _ _ _ _ Hrun) as (? & _ & _ & _ & ?).
    + eauto.
Qed.

Lemma createModuleFromTemplate_returns_witness :
  ∃ w', createModuleFromTemplate "/work/tpl" "/work/out" Sample.data Sample.with_template
        = (Returned tt, w').
Proof.
  eexists.
  exact (createModuleFromTemplate_returns "/work/tpl" "/work/out" Sample.data _
           Sample.with_template _ eq_refl eq_refl eq_refl eq_refl eq_refl).
Defined.

(* ================================================================== *)
(** * Further properties: the target directory *)
(* ================================================================== *)

Lemma mkdirp_empty segs : ∀ n,
  Fs.mkdirp segs (Fs.Dir []) = Some n → Fs.find segs n = Some (Fs.Dir []).
Proof.
  induction segs as [|s segs IH]; intros n H; simpl in *; [by injection H as <-|].
  destruct (Fs.mkdirp segs (Fs.Dir [])) as [child|] eqn:Hc; [|done].
  injection H as <-. simpl. rewrite String.eqb_refl. by apply IH.
Qed.

(** After [mkdir -p] the path is a directory. *)
Lemma mkdirp_find segs : ∀ n n',
  Fs.mkdirp segs n = Some n' → ∃ es, Fs.find segs n' = Some (Fs.Dir es).
Proof.
  induction segs as [|s segs IH]; intros [c|es] n' H; simpl in *; try done.
  - injection H as <-. by exists es.
  - destruct (Fs.mkdirp segs _) as [child|] eqn:Hc; [|done]. injection H as <-.
    simpl. rewrite FsFacts.lookup_set_entry_eq. by eapply IH.
Qed.

(** [mkdir -p] of a directory that exists changes nothing. *)
Lemma mkdirp_existing segs : ∀ n es,
  Fs.find segs n = Some (Fs.Dir es) → Fs.mkdirp segs n = Some n.
Proof.
  induction segs as [|s segs IH]; intros [c|es0] es H; simpl in *; try done.
  destruct (Fs.lookup_entry s es0) as [child|] eqn:Hl; [|done]. simpl.
  rewrite (IH _ _ H). by rewrite FsFacts.set_entry_same.
Qed.

(** [mkdir -p] of a path that did not exist makes an empty directory. *)
Lemma mkdirp_fresh segs : ∀ n n',
  Fs.find segs n = None → Fs.mkdirp segs n = Some n' →
  Fs.find segs n' = Some (Fs.Dir []).
Proof.
  induction segs as [|s segs IH]; intros [c|es] n' Hf H; simpl in *; try done.
  destruct (Fs.mkdirp segs _) as [child|] eqn:Hc; [|done]. injection H as <-.
  simpl. rewrite FsFacts.lookup_set_entry_eq.
  destruct (Fs.lookup_entry s es) as [x|]; simpl in Hc.
  - by eapply IH.
  - by apply mkdirp_empty.
Qed.

(** [mkdir -p] keeps every regular file. *)
Lemma mkdirp_content segs : ∀ p c n n',
  Fs.mkdirp segs n = Some n' → Fs.content p n = Some c → Fs.content p n' = Some c.
Proof.
  induction segs as [|s segs IH]; intros p c [c0|es] n' H Hc; simpl in *; try done.
  - by injection H as <-.
  - destruct (Fs.mkdirp segs _) as [child|] eqn:Hm; [|done]. injection H as <-.
    destruct p as [|f p]; [done|]. rewrite FsFacts.content_cons in Hc |- *.
    destruct (String.eqb_spec s f) as [->|Hne].
    + rewrite FsFacts.lookup_set_entry_eq. simpl.
      destruct (Fs.lookup_entry f es) as [x|]; [|done]. simpl in *. by eapply IH.
    + by rewrite FsFacts.lookup_set_entry_ne.
Qed.

Lemma confirmTargetDirAsync_accepted targetDir w files :
  readdir targetDir w = (Returned files, w) → files ≠ [] →
  declines (replies w) = false →
  confirmTargetDirAsync targetDir w
  = (Returned tt, with_log w [Prompted (shouldContinue_question targetDir)]
                           (tail (replies w))).
Proof.
  intros H Hne Hd. unfold confirmTargetDirAsync.
  rewrite (bind_returned _ _ _ _ _ H).
  destruct files as [|f files]; [done|]. simpl.
  unfold bind, ask, with_log. simpl.
  destruct (replies w) as [|[v|] rs]; simpl in *; [done| |done].
  unfold prop. rewrite lookup_insert_eq. simpl.
  apply negb_false_iff in Hd. by rewrite Hd.
Qed.

(** X11: [ensureDir] never alters a file.  Whatever its outcome, every
    regular file is still there with its text; on a directory that
    exists it returns and leaves the disk as it is; and when it throws
    the disk is untouched. *)
Theorem ensureDir_keeps_files path w o w1 :
  ensureDir path w = (o, w1) →
  (∀ p c, Fs.content p (disk w) = Some c → Fs.content p (disk w1) = Some c)
  ∧ (∀ es, Fs.find (Fs.locate path) (disk w) = Some (Fs.Dir es) →
           o = Returned tt ∧ disk w1 = disk w)
  ∧ (∀ e, o = Thrown e → disk w1 = disk w).
Proof.
  rewrite ensureDir_run. destruct (Fs.mkdirp _ _) as [d|] eqn:Hm; intros [= <- <-].
  - split_and!; [|intros es Hes|done].
    + intros p c. by apply mkdirp_content with (1 := Hm).
    + rewrite (mkdirp_existing _ _ _ Hes) in Hm. by injection Hm as <-.
  - split_and!; [done| |done].
    intros es Hes. by rewrite (mkdirp_existing _ _ _ Hes) in Hm.
Qed.

Lemma ensureDir_keeps_files_witness :
  (∀ p c, Fs.content p (disk Sample.declining_after_slug) = Some c →
          Fs.content p (disk Sample.declining_after_ensureDir) = Some c)
  ∧ (∀ es, Fs.find (Fs.locate "/work/acme-widget") (disk Sample.declining_after_slug)
           = Some (Fs.Dir es) →
           Returned tt = Returned tt
           ∧ disk Sample.declining_after_ensureDir = disk Sample.declining_after_slug)
  ∧ (∀ e, Returned tt = Thrown e →
          disk Sample.declining_after_ensureDir = disk Sample.declining_after_slug).
Proof.
  apply (ensureDir_keeps_files "/work/acme-widget" Sample.declining_after_slug
           (Returned tt) Sample.declining_after_ensureDir).
  vm_compute. reflexivity.
Defined.

(** X12: once [ensureDir] returned, the confirmation finds a directory to
    list: it does not throw, it leaves the disk alone, and it shows its
    one question or none. *)
Theorem confirmTargetDirAsync_after_ensureDir targetDir w w1 :
  ensureDir targetDir w = (Returned tt, w1) →
  ∃ o w2,
    confirmTargetDirAsync targetDir w1 = (o, w2)
    ∧ (o = Returned tt ∨ o = Exited 0)
    ∧ disk w2 = disk w1
    ∧ (log w2 = log w1
       ∨ log w2 = log w1 ++ [Prompted (shouldContinue_question targetDir)]).
Proof.
  rewrite ensureDir_run.
  destruct (Fs.mkdirp _ _) as [d|] eqn:Hm; [|done]. intros [= <-].
  destruct (mkdirp_find _ _ _ Hm) as [es Hes].
  assert (readdir targetDir
            {| replies := replies w; disk := d; log := log w ++ [EnsureDir targetDir] |}
          = (Returned (map fst es),
             {| replies := replies w; disk := d; log := log w ++ [EnsureDir targetDir] |}))
    as Hread by (by rewrite readdir_run; simpl; rewrite Hes).
  destruct es as [|e es].
  - rewrite (confirmTargetDirAsync_empty _ _ Hread). eexists _, _.
    split_and!; [reflexivity|by left|reflexivity|by left].
  - destruct (declines (replies w)) eqn:Hd.
    + rewrite (confirmTargetDirAsync_declined _ _ _ Hread ltac:(done) Hd).
      eexists _, _. split_and!; [reflexivity|by right|reflexivity|by right].
    + rewrite (confirmTargetDirAsync_accepted _ _ _ Hread ltac:(done) Hd).
      eexists _, _. split_and!; [reflexivity|by left|reflexivity|by right].
Qed.

Lemma confirmTargetDirAsync_after_ensureDir_witness :
  ∃ o w2,
    confirmTargetDirAsync "/work/acme-widget" Sample.declining_after_ensureDir = (o, w2)
    ∧ (o = Returned tt ∨ o = Exited 0)
    ∧ disk w2 = disk Sample.declining_after_ensureDir
    ∧ (log w2 = log Sample.declining_after_ensureDir
       ∨ log w2 = log Sample.declining_after_ensureDir
                  ++ [Prompted (shouldContinue_question "/work/acme-widget")]).
Proof.
  apply (confirmTargetDirAsync_after_ensureDir "/work/acme-widget"
           Sample.declining_after_slug Sample.declining_after_ensureDir).
  vm_compute. reflexivity.
Defined.

(** X13: a target directory that did not exist is created empty, so the
    confirmation returns without a prompt and the world is as
    [ensureDir] left it. *)
Theorem fresh_target_needs_no_confirmation targetDir w w1 :
  Fs.find (Fs.locate targetDir) (disk w) = None →
  ensureDir targetDir w = (Returned tt, w1) →
  confirmTargetDirAsync targetDir w1 = (Returned tt, w1).
Proof.
  intros Hnew. rewrite ensureDir_run.
  destruct (Fs.mkdirp _ _) as [d|] eqn:Hm; [|done]. intros [= <-].
  apply confirmTargetDirAsync_empty. rewrite readdir_run. simpl.
  by rewrite (mkdirp_fresh _ _ _ Hnew Hm).
Qed.

Lemma fresh_target_needs_no_confirmation_witness :
  confirmTargetDirAsync "/work/acme-widget"
    (ensureDir "/work/acme-widget" (Sample.scene [] [])).2
  = (Returned tt, (ensureDir "/work/acme-widget" (Sample.scene [] [])).2).
Proof.
  apply (fresh_target_needs_no_confirmation "/work/acme-widget" (Sample.scene [] []));
    vm_compute; reflexivity.
Defined.

(** X14: on a target directory that is not empty the confirmation shows
    exactly one prompt and consumes one reply; the run goes on when the
    answer is truthy, and the process exits with status 0 when the answer
    is falsy or the prompt is cancelled. *)
Theorem confirmTargetDirAsync_decides targetDir w files :
  readdir targetDir w = (Returned files, w) → files ≠ [] →
  confirmTargetDirAsync targetDir w
  = (if declines (replies w) then Exited 0 else Returned tt,
     with_log w [Prompted (shouldContinue_question targetDir)] (tail (replies w))).
Proof.
  intros Hread Hne. destruct (declines (replies w)) eqn:Hd.
  - by apply confirmTargetDirAsync_declined with (files := files).
  - by apply confirmTargetDirAsync_accepted with (files := files).
Qed.

Lemma confirmTargetDirAsync_decides_witness :
  confirmTargetDirAsync "/work/acme-widget"
    (Sample.scene [Prompts.Submit (JS.Bool true)]
                  [("acme-widget", Fs.Dir [("notes.txt", Fs.File "keep")])])
  = (Returned tt,
     with_log (Sample.scene [Prompts.Submit (JS.Bool true)]
                            [("acme-widget", Fs.Dir [("notes.txt", Fs.File "keep")])])
              [Prompted (shouldContinue_question "/work/acme-widget")] []).
Proof.
  apply (confirmTargetDirAsync_decides "/work/acme-widget"
           (Sample.scene [Prompts.Submit (JS.Bool true)]
                         [("acme-widget", Fs.Dir [("notes.txt", Fs.File "keep")])])
           ["notes.txt"]); [reflexivity|discriminate].
Defined.

(* ================================================================== *)
(** * Further properties: the run *)
(* ================================================================== *)

Section occurs.
Context (Q : event → Prop).





End occurs.

(** Every event of the steps after [ensureDir] is aimed at the target
    directory. *)
Lemma only_main_steps E options targetDir slug :
  only (aimed_at options targetDir) (main_steps E options targetDir slug).
Proof.
  set (P := aimed_at options targetDir).
  unfold main_steps, main_after_confirmation, newStep, succeed.
  apply only_bind; [by apply only_confirmTargetDirAsync|intros _].
  apply only_bind; [by apply only_askForSubstitutionDataAsync|intros data].
  apply only_bind; [by apply only_emit|intros _].
  apply only_bind; [apply only_try|intros pm].
  eapply only_bind_returns;
    [apply (only_packagePath E options)|apply returns_packagePath|].
  intros pp Hpp. simpl in Hpp.
  apply only_bind.
  { apply only_bind; [by apply only_emit|intros _].
    apply only_bind; [|intros _; by apply only_emit].
    apply only_createModuleFromTemplate. intros r c. by exists r. }
  intros _. apply only_bind.
  { repeat first [apply only_on_disk | apply only_emit; done
                 | apply only_bind; [|intros ?]]. }
  intros _. apply only_bind.
  { repeat first [apply only_on_disk | apply only_emit; done
                 | apply only_bind; [|intros ?]]. }
  intros _. apply only_bind.
  { simpl. destruct (JS.truthy _) eqn:Hsrc; simpl; [apply only_ret|].
    apply only_remove. left. by rewrite Hpp. }
  intros _. apply only_bind.
  { simpl. destruct (CommandOptions.withReadme options) eqn:Hr; simpl;
      [apply only_ret|]. apply only_remove. right. by left. }
  intros _. apply only_bind.
  { simpl. destruct (CommandOptions.withChangelog options) eqn:Hc; simpl;
      [apply only_ret|]. apply only_remove. right. by right. }
  intros _. apply only_bind.
  { simpl. destruct (CommandOptions.example options); [|apply only_ret].
    apply only_bind; [by apply only_emit|intros _; apply only_on_disk]. }
  intros _. apply only_bind; [by apply only_emit|intros _]. by apply only_emit.
Qed.

(** [main] from [ensureDir] on: the directory is made first, and what
    follows is aimed at it. *)
Lemma main_from_ensureDir E options targetDir slug w :
  ∃ evs, log ((ensureDir targetDir ;;; main_steps E options targetDir slug) w).2
         = log w ++ EnsureDir targetDir :: evs
         ∧ Forall (aimed_at options targetDir) evs.
Proof.
  unfold bind. rewrite ensureDir_run.
  destruct (Fs.mkdirp _ _) as [d|]; [|by exists []].
  match goal with
  | |- context [main_steps _ _ _ _ ?w1] =>
      destruct (only_main_steps E options targetDir slug w1 _ _ (surjective_pairing _))
        as (evs & Hl & Hevs)
  end.
  exists evs. split; [|done]. rewrite Hl. simpl. by rewrite <-app_assoc.
Qed.



(** X15: where the module goes.  A target given on the command line wins
    over the slug; without one (or with an empty one) the slug names the
    directory; in both cases [ensureDir] of that directory joined to the
    working directory is the first thing the run does after the slug
    prompt.  With neither a target nor a string for a slug, [path.join]
    throws and nothing was created. *)
Theorem main_target_selection E target options w slug w1 :
  askForPackageSlugAsync E target w = (Returned slug, w1) →
  (∀ t, target = Some t → t ≠ EmptyString →
     ∃ evs, log (main E target options w).2
            = log w1 ++ EnsureDir (Path.join [CWD E; t]) :: evs)
  ∧ (JS.truthy (of_option target) = false →
     ∀ s, slug = JS.Str s →
       ∃ evs, log (main E target options w).2
              = log w1 ++ EnsureDir (Path.join [CWD E; s]) :: evs)
  ∧ (JS.truthy (of_option target) = false →
     (∀ s, slug ≠ JS.Str s) →
     ∃ e, main E target options w = (Thrown e, w1)).
Proof.
  intros Hslug.
  assert (∀ name, JS.or (of_option target) slug = JS.Str name →
            ∃ evs, log (main E target options w).2
                   = log w1 ++ EnsureDir (Path.join [CWD E; name]) :: evs) as Hname.
  { intros name Hor. rewrite main_unfold, (bind_returned _ _ _ _ _ Hslug), Hor.
    unfold bind at 1. simpl.
    destruct (main_from_ensureDir E options (Path.join [CWD E; name]) slug w1)
      as (evs & Hl & _).
    exists evs. exact Hl. }
  split_and!.
  - intros t -> Ht. apply Hname. unfold JS.or. simpl.
    by rewrite (proj2 (String.eqb_neq _ _) Ht).
  - intros Ht s ->. apply Hname. unfold JS.or. by rewrite Ht.
  - intros Ht Hs. rewrite main_unfold, (bind_returned _ _ _ _ _ Hslug).
    unfold JS.or. rewrite Ht. unfold bind at 1.
    destruct slug as [|s|b]; simpl; [eauto|by destruct (Hs s)|eauto].
Qed.

Lemma main_target_selection_witness :
  ∃ evs, log (main Sample.E (Some "my-module") (Sample.options None) Sample.answering).2
         = log Scene.answering_after_slug ++ EnsureDir "/work/my-module" :: evs.
Proof.
  apply (proj1 (main_target_selection Sample.E (Some "my-module") (Sample.options None)
                  Sample.answering (JS.Str "acme-widget") Scene.answering_after_slug
                  eq_refl) "my-module" eq_refl).
  discriminate.
Defined.

(** X16: how the events of a run name the target directory.  It is the
    only directory the run creates, downloads to, installs and builds in
    and makes the example in.  The run removes nothing but the [package]
    directory of the target when the template was downloaded, its
    [README.md] when [withReadme] is off and its [CHANGELOG.md] when
    [withChangelog] is off; a local template source is never removed.
    The files it writes are the exception: each goes to [path.join] of
    the target directory and a relative path, and nothing keeps that
    inside the target directory. *)
Theorem main_aims_at_target E target options w :
  ∃ targetDir evs,
    log (main E target options w).2 = log w ++ evs
    ∧ Forall (aimed_at options targetDir) evs.
Proof.
  rewrite main_unfold. unfold bind at 1.
  destruct (askForPackageSlugAsync E target w) as [[slug|c|e] w1] eqn:Hslug.
  2,3: destruct (only_askForPackageSlugAsync (aimed_at options EmptyString)
                   ltac:(done) E target _ _ _ Hslug) as (evs & Hl & Hevs);
       by exists EmptyString, evs.
  unfold bind at 1.
  destruct (JS.or (of_option target) slug) as [|name|b]; simpl.
  1,3: destruct (only_askForPackageSlugAsync (aimed_at options EmptyString)
                   ltac:(done) E target _ _ _ Hslug) as (evs & Hl & Hevs);
       by exists EmptyString, evs.
  set (targetDir := Path.join [CWD E; name]).
  destruct (only_askForPackageSlugAsync (aimed_at options targetDir)
              ltac:(done) E target _ _ _ Hslug) as (evs1 & Hl1 & Hevs1).
  destruct (main_from_ensureDir E options targetDir slug w1) as (evs2 & Hl2 & Hevs2).
  exists targetDir, (evs1 ++ EnsureDir targetDir :: evs2).
  split; [|apply Forall_app; split; [done|by constructor]].
  rewrite app_assoc, <-Hl1. exact Hl2.
Qed.



(** ** A registry that does not answer *)

Lemma packagePath_registry_failure E options targetDir :
  JS.truthy (of_option (CommandOptions.source options)) = false →
  npm_view_stdout E ("expo-module-template" +:+ "@"
                     +:+ (if EXPO_BETA E then "next" else "latest")) = None →
  only preparatory (packagePath E options targetDir)
  ∧ returns (λ _, False) (packagePath E options targetDir).
Proof.
  intros Hsrc Hnpm.
  assert (∀ w, packagePath E options targetDir w
               = (Thrown "npm view failed",
                  with_log w [StepStarted "Downloading module template from npm";
                              NpmView ("expo-module-template" +:+ "@"
                                       +:+ (if EXPO_BETA E then "next" else "latest"))]
                           (replies w))) as Hrun.
  { intros w. unfold packagePath. rewrite Hsrc.
    unfold downloadPackageAsync, newStep, getNpmTarballUrl, bind, emit, try, throw,
      with_log.
    simpl. rewrite Hnpm. simpl. by rewrite <-app_assoc. }
  split.
  - intros w o w'. rewrite Hrun. intros [= <- <-]. eexists. split; [reflexivity|].
    by repeat constructor.
  - intros w a w'. by rewrite Hrun.
Qed.

Lemma main_steps_registry_failure E options targetDir slug :
  JS.truthy (of_option (CommandOptions.source options)) = false →
  npm_view_stdout E ("expo-module-template" +:+ "@"
                     +:+ (if EXPO_BETA E then "next" else "latest")) = None →
  only preparatory (main_steps E options targetDir slug)
  ∧ returns (λ _, False) (main_steps E options targetDir slug).
Proof.
  intros Hsrc Hnpm.
  destruct (packagePath_registry_failure E
              {| CommandOptions.target := Some targetDir;
                 CommandOptions.source := CommandOptions.source options;
                 CommandOptions.withReadme := CommandOptions.withReadme options;
                 CommandOptions.withChangelog := CommandOptions.withChangelog options;
                 CommandOptions.example := CommandOptions.example options |}
              targetDir Hsrc Hnpm) as [Honly Hnever].
  split.
  - unfold main_steps, main_after_confirmation.
    apply only_bind; [by apply only_confirmTargetDirAsync|intros _].
    apply only_bind; [by apply only_askForSubstitutionDataAsync|intros data].
    apply only_bind; [by apply only_emit|intros _].
    apply only_bind; [apply only_try|intros pm].
    by eapply only_bind_returns; [exact Honly|exact Hnever|].
  - intros w a w'. unfold main_steps, main_after_confirmation.
    intros (_ & w1 & _ & H)%bind_returned_inv.
    apply bind_returned_inv in H as (data & w2 & _ & H).
    apply bind_returned_inv in H as (_ & w3 & _ & H).
    apply bind_returned_inv in H as (pm & w4 & _ & H).
    apply bind_returned_inv in H as (pp & w5 & H & _).
    by eapply Hnever.
Qed.

(** X18: when no local source is given and the registry lookup fails,
    the run does not return, and it has done nothing but ask, print,
    create the target directory and look the template up: it downloaded
    nothing, wrote no file, removed nothing and ran no package-manager
    step. *)
Theorem registry_failure_stops_the_run E target options w :
  JS.truthy (of_option (CommandOptions.source options)) = false →
  npm_view_stdout E ("expo-module-template" +:+ "@"
                     +:+ (if EXPO_BETA E then "next" else "latest")) = None →
  (∀ a, (main E target options w).1 ≠ Returned a)
  ∧ ∃ evs, log (main E target options w).2 = log w ++ evs ∧ Forall preparatory evs.
Proof.
  intros Hsrc Hnpm. split.
  - intros [] Hret.
    destruct (main E target options w) as [o w'] eqn:Hrun. simpl in Hret. subst o.
    rewrite main_unfold in Hrun.
    apply bind_returned_inv in Hrun as (slug & w1 & _ & H).
    apply bind_returned_inv in H as (targetDir & w2 & _ & H).
    apply bind_returned_inv in H as (_ & w3 & _ & H).
    by eapply (proj2 (main_steps_registry_failure E options targetDir slug Hsrc Hnpm)).
  - assert (only preparatory (main E target options)) as Honly;
      [|exact (Honly w _ _ (surjective_pairing _))].
    rewrite main_unfold.
    apply only_bind; [by apply only_askForPackageSlugAsync|intros slug].
    apply only_bind; [unfold path_join_value; destruct (JS.or _ _);
                      apply only_ret || apply only_throw|intros targetDir].
    apply only_bind.
    + unfold ensureDir. apply only_bind; [by apply only_emit|intros _].
      apply only_on_disk.
    + intros _. by apply main_steps_registry_failure.
Qed.

Lemma registry_failure_stops_the_run_witness :
  (∀ a, (main Scene.offline None (Sample.options None) Sample.answering).1 ≠ Returned a)
  ∧ ∃ evs, log (main Scene.offline None (Sample.options None) Sample.answering).2
           = log Sample.answering ++ evs
           ∧ Forall preparatory evs.
Proof.
  apply (registry_failure_stops_the_run Scene.offline None (Sample.options None)
           Sample.answering); reflexivity.
Defined.

(* ================================================================== *)
(** * Further properties: the answers and the registry *)
(* ================================================================== *)

Lemma collect_unasked qs : ∀ vs answers key,
  ¬ In key (map Prompts.name (asked qs)) →
  collect qs vs answers !! key = answers !! key.
Proof.
  induction qs as [|q qs IH]; intros vs answers key Hkey; [done|]. simpl.
  destruct (Prompts.type q) as [t|] eqn:Ht.
  - rewrite (asked_cons_keep _ _ _ Ht) in Hkey. simpl in Hkey.
    destruct vs as [|v vs]; [done|].
    rewrite IH by tauto. apply lookup_insert_ne. tauto.
  - rewrite (asked_cons_skip _ _ Ht) in Hkey. by apply IH.
Qed.

Lemma prop_unasked qs vs key :
  ¬ In key (map Prompts.name (asked qs)) → prop (collect qs vs ∅) key = JS.Undefined.
Proof. intros H. unfold prop. by rewrite collect_unasked. Qed.

(** X19: the substitution data come from the answers alone, so a field
    whose prompt is not shown reads [undefined], and an author whose
    three prompts are not shown is the string
    ["undefined <undefined> (undefined)"]. *)
Theorem unasked_answers_read_undefined E slug vs rest w :
  replies w = map Prompts.Submit vs ++ rest →
  length vs = length (asked (getSubstitutionDataPrompts E slug)) →
  let names := map Prompts.name (asked (getSubstitutionDataPrompts E slug)) in
  ∃ d w',
    askForSubstitutionDataAsync E slug w = (Returned d, w')
    ∧ (¬ In "name" names → name (project d) = JS.Undefined)
    ∧ (¬ In "description" names → description (project d) = JS.Undefined)
    ∧ (¬ In "package" names → package (project d) = JS.Undefined)
    ∧ (¬ In "repo" names → repo d = JS.Undefined)
    ∧ (¬ In "authorName" names → ¬ In "authorEmail" names → ¬ In "authorUrl" names →
       author d = "undefined <undefined> (undefined)").
Proof.
  intros Hr Hl names. eexists _, _.
  rewrite (askForSubstitutionDataAsync_answered _ _ _ _ _ Hr Hl).
  split; [reflexivity|]. simpl. split_and!; try apply prop_unasked.
  intros H1 H2 H3. by rewrite !prop_unasked.
Qed.

Lemma unasked_answers_read_undefined_witness :
  let names := map Prompts.name
                 (asked (getSubstitutionDataPrompts Scene.skipping (JS.Str "acme-widget"))) in
  ∃ d w',
    askForSubstitutionDataAsync Scene.skipping (JS.Str "acme-widget")
      (Sample.scene [Prompts.Submit (JS.Str "AcmeWidget");
                     Prompts.Submit (JS.Str "com.acme.widget")] [])
    = (Returned d, w')
    ∧ (¬ In "name" names → name (project d) = JS.Undefined)
    ∧ (¬ In "description" names → description (project d) = JS.Undefined)
    ∧ (¬ In "package" names → package (project d) = JS.Undefined)
    ∧ (¬ In "repo" names → repo d = JS.Undefined)
    ∧ (¬ In "authorName" names → ¬ In "authorEmail" names → ¬ In "authorUrl" names →
       author d = "undefined <undefined> (undefined)").
Proof.
  exact (unasked_answers_read_undefined Scene.skipping (JS.Str "acme-widget")
           [JS.Str "AcmeWidget"; JS.Str "com.acme.widget"] []
           (Sample.scene [Prompts.Submit (JS.Str "AcmeWidget");
                          Prompts.Submit (JS.Str "com.acme.widget")] [])
           eq_refl eq_refl).
Defined.

Lemma trim_start_from_head s : ∀ skip, JS.space_length (JS.trim_start_from skip s) = 0.
Proof.
  induction s as [|a s IH]; intros skip; [done|]. cbn [JS.trim_start_from].
  destruct skip as [|n]; [|apply IH].
  destruct (JS.space_length (String a s)) as [|n] eqn:Hs; [done|apply IH].
Qed.

Lemma trim_end_cons a s :
  JS.trim_end (String a s) = EmptyString
  ∨ JS.trim_end (String a s) = String a (JS.trim_end s).
Proof. cbn [JS.trim_end]. destruct (String.eqb _ _); auto. Qed.

(** Cutting the end of a string does not make it start with white
    space. *)
Lemma trim_end_head s : JS.space_length s = 0 → JS.space_length (JS.trim_end s) = 0.
Proof.
  destruct s as [|a s]; [done|].
  destruct (trim_end_cons a s) as [->| ->]; [done|].
  cbn [JS.space_length]. destruct (JS.is_space a); [done|].
  destruct s as [|b s]; [done|].
  destruct (trim_end_cons b s) as [->| ->]; [done|].
  destruct (JS.is_space2 a b); [done|].
  destruct s as [|c s]; [done|].
  destruct (trim_end_cons c s) as [->| ->]; [done|].
  by destruct (JS.is_space3 a b c).
Qed.

Lemma trim_end_empty s :
  JS.trim_end s = EmptyString → JS.trim_start s = EmptyString.
Proof.
  destruct s as [|a s]; [done|]. cbn [JS.trim_end].
  destruct (String.eqb_spec (JS.trim_start (String a s)) EmptyString); [done|].
  discriminate.
Qed.

(** What a cut string ends with is not a white-space character. *)
Lemma trim_end_last s : ∀ pre w,
  JS.trim_end s = pre +:+ w → w ≠ EmptyString →
  JS.space_length w ≠ String.length w.
Proof.
  induction s as [|a s IH]; intros pre w H Hw.
  { destruct pre; [by destruct w|done]. }
  destruct (trim_end_cons a s) as [Ht|Ht]; rewrite Ht in H.
  { destruct pre; [by destruct w|done]. }
  destruct pre as [|p pre]; last first.
  { rewrite string_app_cons in H. injection H as _ H. by eapply IH. }
  rewrite string_app_nil in H. subst w. intros Hlen.
  assert (JS.trim_start (String a s) ≠ EmptyString) as Hblank.
  { intros Hb. cbn [JS.trim_end] in Ht. rewrite Hb in Ht. discriminate. }
  apply Hblank. clear Hblank Ht IH Hw. unfold JS.trim_start.
  cbn [JS.trim_start_from JS.space_length String.length] in Hlen |- *.
  destruct (JS.is_space a).
  { injection Hlen as Hlen. destruct (JS.trim_end s) eqn:Hs; [|done].
    by apply trim_end_empty. }
  destruct s as [|b s]; [done|].
  destruct (trim_end_cons b s) as [Hb|Hb]; rewrite Hb in Hlen; [done|].
  cbn [String.length] in Hlen. destruct (JS.is_space2 a b).
  { injection Hlen as Hlen. destruct (JS.trim_end s) eqn:Hs; [|done].
    cbn [JS.trim_start_from]. by apply trim_end_empty. }
  destruct s as [|c s]; [done|].
  destruct (trim_end_cons c s) as [Hc|Hc]; rewrite Hc in Hlen; [done|].
  cbn [String.length] in Hlen. destruct (JS.is_space3 a b c); [|done].
  injection Hlen as Hlen. destruct (JS.trim_end s) eqn:Hs; [|done].
  cbn [JS.trim_start_from]. by apply trim_end_empty.
Qed.

(** X20: the URL that [getNpmTarballUrl] returns neither starts nor ends
    with a white-space character, whatever [npm view] printed around
    it. *)
Theorem getNpmTarballUrl_trimmed E packageName version w url w' :
  getNpmTarballUrl E packageName version w = (Returned url, w') →
  JS.space_length url = 0
  ∧ (∀ pre c, url = pre +:+ c → c ≠ EmptyString →
              JS.space_length c ≠ String.length c).
Proof.
  unfold getNpmTarballUrl, bind, emit, try, ret. simpl.
  destruct (npm_view_stdout E _) as [stdout|]; [|done]. simpl.
  intros [= <- _]. unfold JS.trim. split.
  - apply trim_end_head, trim_start_from_head.
  - intros pre c. apply trim_end_last.
Qed.

Lemma getNpmTarballUrl_trimmed_witness :
  JS.space_length
    "https://registry.npmjs.org/expo-module-template/-/expo-module-template-1.0.0.tgz"
  = 0
  ∧ (∀ pre c,
       "https://registry.npmjs.org/expo-module-template/-/expo-module-template-1.0.0.tgz"
       = pre +:+ c → c ≠ EmptyString → JS.space_length c ≠ String.length c).
Proof.
  apply (getNpmTarballUrl_trimmed Sample.E "expo-module-template" "latest"
           Sample.with_template _
           (getNpmTarballUrl Sample.E "expo-module-template" "latest"
              Sample.with_template).2).
  vm_compute. reflexivity.
Defined.
